(** * Gradient descent on the intercept-only model [y = b]

    A shallow embedding of the numeric core and of the gradient-descent
    simulation of [main.js]: the metric functions [computeMSE],
    [computeMSEDerivative], [computeOptimalB], the animation helper
    [animateGradientDescentStep] and the two controllers
    [stepGradientDescent] and [runGradientDescent].

    Numbers.  A JavaScript number is a binary64 float.  The embedding
    reads the arithmetic of the code over the exact rationals [Q]: the four
    operations and [Math.pow (_, 3)] are the field operations, without
    rounding, NaN or infinities.  The theorems stated of it say which
    expression the code stores (with [=]), or state facts the rounded
    computation shares: order and sign, which rounding to nearest keeps,
    and values at inputs where no rounding occurs.  Lemmas on exact values
    are steps of proofs.  Where rounding breaks a property of the exact
    reading, the module [B64] evaluates the same expressions on binary64
    floats and the failure is computed there.

    Effects.  The code mutates the globals [gdState] and the DOM and
    suspends at every [await].  A [World] holds the globals, the two input
    fields the controllers read, a clock and the log of DOM writes; an
    asynchronous function is a state transformer that also returns the
    worlds in which it was suspended, in order. *)

From Stdlib Require Import String.
From Stdlib Require Import PrimFloat.
From Stdlib Require Import List ZArith QArith Qabs Qround Lqa Lia.
Import ListNotations.

Local Open Scope Q_scope.

(** ** Data *)

Module Point.
Record t : Type := make { x : Q; y : Q }.
End Point.

(** [{ points: [...], optimalB: null | number }] *)
Record Dataset : Type := mkDataset {
  points : list Point.t;
  optimalB : option Q
}.

(** The fixed demonstration dataset, as declared (before [initializeApp]
    fills in [optimalB]). *)
Definition mainData0 : Dataset :=
  {| points := [ Point.make 2 2.5; Point.make 7 6.5 ];
     optimalB := None |}.

(** A counter or a length, as a number. *)
Definition Qnat (n : nat) : Q := inject_Z (Z.of_nat n).

(** [arr.length] *)
Definition Qlen {A : Type} (l : list A) : Q := Qnat (length l).

(** [arr.reduce((sum, v) => sum + v, 0)] *)
Definition reduce_sum (l : list Q) : Q := fold_left Qplus l 0.

(** [Math.pow (base, e)] for an integer exponent. *)
Definition Math_pow (base : Q) (e : Z) : Q := Qpower base e.

(** ** Utility functions *)

Definition computeMSE (data : Dataset) (b : Q) : Q :=
  let residuals := map (fun point => Point.y point - b) (points data) in
  let squaredErrors := map (fun r => r * r) residuals in
  let mse := reduce_sum squaredErrors / Qlen (points data) in
  mse.

Definition computeMSEDerivative (data : Dataset) (b : Q) : Q :=
  let residuals := map (fun point => Point.y point - b) (points data) in
  let sumResiduals := reduce_sum residuals in
  let derivative := - (2 / Qlen (points data)) * sumResiduals in
  derivative.

Definition computeOptimalB (data : Dataset) : Q :=
  let yValues := map (fun p => Point.y p) (points data) in
  let mean := reduce_sum yValues / Qlen yValues in
  mean.

(** [initializeApp], as far as the dataset is concerned. *)
Definition initMainData (d : Dataset) : Dataset :=
  {| points := points d; optimalB := Some (computeOptimalB d) |}.

Definition mainData1 : Dataset := initMainData mainData0.

(** ** Gradient descent state and the world around it *)

Module Entry.
Record t : Type := make { iteration : nat; b : Q; mse : Q; gradient : Q }.
End Entry.

Record GdState : Type := mkGdState {
  currentB : Q;
  history : list Entry.t;
  isRunning : bool
}.

(** [let gdState = { currentB: 3, history: [], isRunning: false }] *)
Definition gdState0 : GdState :=
  {| currentB := 3; history := []; isRunning := false |}.

(** What the simulation writes to the page.  [SliderValue v] is
    [intercept-slider.value = v.toFixed(2)] (the formatting is the
    browser's, the log keeps the number it is applied to);
    [MainDisplay] is one call of [updateMainDisplay], which redraws from
    the slider element. *)
Inductive DomEvent : Type :=
| SliderValue (v : Q)
| MainDisplay
| IterationRow (iteration : nat) (b mse gradient : Q)
| IterationsCleared.

Record World : Type := mkWorld {
  mainData : Dataset;
  gdState : GdState;
  learning_rate : Q;   (* parseFloat of the learning-rate field *)
  iterations : Z;      (* parseInt of the iterations field *)
  clock : Q;           (* milliseconds *)
  dom : list DomEvent  (* oldest write first *)
}.

Definition with_currentB (v : Q) (g : GdState) : GdState :=
  {| currentB := v; history := history g; isRunning := isRunning g |}.

Definition with_history (h : list Entry.t) (g : GdState) : GdState :=
  {| currentB := currentB g; history := h; isRunning := isRunning g |}.

Definition with_isRunning (r : bool) (g : GdState) : GdState :=
  {| currentB := currentB g; history := history g; isRunning := r |}.

Definition with_gdState (g : GdState) (w : World) : World :=
  {| mainData := mainData w; gdState := g; learning_rate := learning_rate w;
     iterations := iterations w; clock := clock w; dom := dom w |}.

Definition with_clock (t : Q) (w : World) : World :=
  {| mainData := mainData w; gdState := gdState w;
     learning_rate := learning_rate w; iterations := iterations w;
     clock := t; dom := dom w |}.

Definition with_dom (d : list DomEvent) (w : World) : World :=
  {| mainData := mainData w; gdState := gdState w;
     learning_rate := learning_rate w; iterations := iterations w;
     clock := clock w; dom := d |}.

(** ** Asynchronous functions

    Running an [async] function from a world gives the worlds in which it
    was suspended at an [await] (in order), its result and the world it
    leaves.  Nothing else runs while it is suspended: handlers that fire
    during a suspension are outside the model. *)

Definition Async (A : Type) : Type := World -> list World * (A * World).

Definition ret {A : Type} (a : A) : Async A := fun w => ([], (a, w)).

Definition bind {A B : Type} (m : Async A) (k : A -> Async B) : Async B :=
  fun w =>
    let '(s1, (a, w1)) := m w in
    let '(s2, r) := k a w1 in
    (s1 ++ s2, r).

Declare Scope async_scope.
Delimit Scope async_scope with async.
Notation "x <- m ;; k" := (bind m (fun x => k))
  (at level 61, m at next level, right associativity) : async_scope.
Notation "m ;; k" := (bind m (fun _ => k))
  (at level 61, right associativity) : async_scope.
Local Open Scope async_scope.

Definition read {A : Type} (f : World -> A) : Async A := fun w => ([], (f w, w)).

Definition modify (f : World -> World) : Async unit := fun w => ([], (tt, f w)).

(** [await new Promise(resolve => setTimeout(resolve, ms))]: the function
    is suspended in the current world and resumes [ms] later (the delay is
    taken as exact; a browser never resumes earlier). *)
Definition await_timeout (ms : Q) : Async unit :=
  fun w => ([w], (tt, with_clock (clock w + ms) w)).

Definition suspensions {A : Type} (m : Async A) (w : World) : list World :=
  fst (m w).

Definition final {A : Type} (m : Async A) (w : World) : World :=
  snd (snd (m w)).

Definition set_currentB (v : Q) : Async unit :=
  modify (fun w => with_gdState (with_currentB v (gdState w)) w).

Definition set_history (h : list Entry.t) : Async unit :=
  modify (fun w => with_gdState (with_history h (gdState w)) w).

Definition set_isRunning (r : bool) : Async unit :=
  modify (fun w => with_gdState (with_isRunning r (gdState w)) w).

(** [gdState.history.push(e)] *)
Definition history_push (e : Entry.t) : Async unit :=
  modify (fun w =>
    with_gdState (with_history (history (gdState w) ++ [e]) (gdState w)) w).

Definition dom_write (e : DomEvent) : Async unit :=
  modify (fun w => with_dom (dom w ++ [e]) w).

Definition updateMainDisplay : Async unit := dom_write MainDisplay.

Definition addIterationRow (iteration : nat) (b mse gradient : Q) : Async unit :=
  dom_write (IterationRow iteration b mse gradient).

Definition clearIterationsTable : Async unit := dom_write IterationsCleared.

(** ** Gradient descent simulation *)

(** The value the loop of [animateGradientDescentStep] computes at step
    [i]. *)
Definition interpolate (steps : nat) (oldB newB : Q) (i : nat) : Q :=
  let progress := Qnat i / Qnat steps in
  let easeProgress := 1 - Math_pow (1 - progress) 3 in
  oldB + (newB - oldB) * easeProgress.

(** One turn of the [for] loop. *)
Definition animation_tick (steps : nat) (stepDuration oldB newB : Q) (i : nat)
  : Async unit :=
  let currentB := interpolate steps oldB newB i in
  set_currentB currentB ;;
  dom_write (SliderValue currentB) ;;
  updateMainDisplay ;;
  await_timeout stepDuration.

(** [for (let i = ...; i <= steps; i++)] with [todo] turns left. *)
Fixpoint animation_loop (steps : nat) (stepDuration oldB newB : Q)
    (todo i : nat) : Async unit :=
  match todo with
  | O => ret tt
  | S todo' =>
      animation_tick steps stepDuration oldB newB i ;;
      animation_loop steps stepDuration oldB newB todo' (S i)
  end.

(** The body of [animateGradientDescentStep], with its two local
    constants taken as parameters. *)
Definition animate (duration : Q) (steps : nat) (oldB newB : Q)
    (onDone : option (Async unit)) : Async unit :=
  let stepDuration := duration / Qnat steps in
  animation_loop steps stepDuration oldB newB steps 1 ;;
  set_currentB newB ;;
  dom_write (SliderValue newB) ;;
  updateMainDisplay ;;
  match onDone with
  | Some callback => callback
  | None => ret tt
  end.

Definition animateGradientDescentStep (oldB newB : Q)
    (onDone : option (Async unit)) : Async unit :=
  let duration := 400 in
  let steps := 20%nat in
  animate duration steps oldB newB onDone.

Definition stepGradientDescent : Async unit :=
  learningRate <- read learning_rate ;;
  currentB <- read (fun w => currentB (gdState w)) ;;
  data <- read mainData ;;
  let gradient := computeMSEDerivative data currentB in
  let newB := currentB - learningRate * gradient in
  let mse := computeMSE data currentB in
  iteration <- read (fun w => length (history (gdState w))) ;;
  history_push (Entry.make iteration currentB mse gradient) ;;
  addIterationRow iteration currentB mse gradient ;;
  animateGradientDescentStep currentB newB (Some (ret tt)).

(** One turn of the loop of [runGradientDescent]. *)
Definition run_iteration (learningRate : Q) (i : nat) : Async unit :=
  currentB <- read (fun w => currentB (gdState w)) ;;
  data <- read mainData ;;
  let gradient := computeMSEDerivative data currentB in
  let newB := currentB - learningRate * gradient in
  let mse := computeMSE data currentB in
  history_push (Entry.make i currentB mse gradient) ;;
  addIterationRow i currentB mse gradient ;;
  animateGradientDescentStep currentB newB (Some (ret tt)).

Fixpoint run_loop (learningRate : Q) (todo i : nat) : Async unit :=
  match todo with
  | O => ret tt
  | S todo' => run_iteration learningRate i ;; run_loop learningRate todo' (S i)
  end.

Definition runGradientDescent : Async unit :=
  running <- read (fun w => isRunning (gdState w)) ;;
  if running then ret tt
  else
    set_isRunning true ;;
    learningRate <- read learning_rate ;;
    iterations <- read iterations ;;
    set_history [] ;;
    clearIterationsTable ;;
    run_loop learningRate (Z.to_nat iterations) 0 ;;
    set_isRunning false.

(** The page as it is loaded, with the two input fields as given. *)
Definition world0 (lr : Q) (n : Z) : World :=
  {| mainData := mainData1; gdState := gdState0; learning_rate := lr;
     iterations := n; clock := 0; dom := [] |}.

(** ** Reference sums *)

Fixpoint Qsum (l : list Q) : Q :=
  match l with
  | [] => 0
  | v :: l' => v + Qsum l'
  end.

(** the arithmetic mean of the y-values *)
Definition mean_y (data : Dataset) : Q :=
  Qsum (map Point.y (points data)) / Qlen (points data).

(** ** Worlds reached by an animation, in closed form *)

(** The clock after [k] waits of [stepDuration] each. *)
Definition clock_after (stepDuration t : Q) (k : nat) : Q :=
  Nat.iter k (fun t' => t' + stepDuration) t.

(** The DOM writes of the turns [i], ..., [i + k - 1] of the loop. *)
Definition tick_writes (steps : nat) (oldB newB : Q) (i k : nat)
  : list DomEvent :=
  flat_map
    (fun j => [SliderValue (interpolate steps oldB newB j); MainDisplay])
    (seq i k).

(** The world in which turn [k + i] is suspended, for a loop entered in
    [w] at turn [i]. *)
Definition tick_world (steps : nat) (stepDuration oldB newB : Q)
    (w : World) (i k : nat) : World :=
  {| mainData := mainData w;
     gdState := with_currentB (interpolate steps oldB newB (k + i)) (gdState w);
     learning_rate := learning_rate w;
     iterations := iterations w;
     clock := clock_after stepDuration (clock w) k;
     dom := dom w ++ tick_writes steps oldB newB i (S k) |}.

(** The world the loop leaves after [todo] turns. *)
Definition loop_end_world (steps : nat) (stepDuration oldB newB : Q)
    (w : World) (i todo : nat) : World :=
  {| mainData := mainData w;
     gdState := match todo with
                | O => gdState w
                | S k =>
                    with_currentB (interpolate steps oldB newB (k + i)) (gdState w)
                end;
     learning_rate := learning_rate w;
     iterations := iterations w;
     clock := clock_after stepDuration (clock w) todo;
     dom := dom w ++ tick_writes steps oldB newB i todo |}.

(** The world after the three statements that follow the loop. *)
Definition snap_world (duration : Q) (steps : nat) (oldB newB : Q) (w : World)
  : World :=
  {| mainData := mainData w;
     gdState := with_currentB newB (gdState w);
     learning_rate := learning_rate w;
     iterations := iterations w;
     clock := clock_after (duration / Qnat steps) (clock w) steps;
     dom := dom w ++ tick_writes steps oldB newB 1 steps
                  ++ [SliderValue newB; MainDisplay] |}.

(** The update rule, and the parameter after [k] updates. *)
Definition gd_update (data : Dataset) (learningRate b : Q) : Q :=
  b - learningRate * computeMSEDerivative data b.

Definition gd_iterate (data : Dataset) (learningRate b0 : Q) (k : nat) : Q :=
  Nat.iter k (gd_update data learningRate) b0.

(** The history entry of an iteration numbered [i] that starts at [b]. *)
Definition entry_at (data : Dataset) (i : nat) (b : Q) : Entry.t :=
  Entry.make i b (computeMSE data b) (computeMSEDerivative data b).

(** The world in which an iteration numbered [i] starts its animation. *)
Definition recorded_world (i : nat) (w : World) : World :=
  let b := currentB (gdState w) in
  let e := entry_at (mainData w) i b in
  {| mainData := mainData w;
     gdState := with_history (history (gdState w) ++ [e]) (gdState w);
     learning_rate := learning_rate w;
     iterations := iterations w;
     clock := clock w;
     dom := dom w ++ [IterationRow i b (Entry.mse e) (Entry.gradient e)] |}.

(** The worlds in which one iteration numbered [i], run with learning rate
    [lr] from [w], is suspended, and the world it leaves. *)
Definition iteration_suspensions (lr : Q) (i : nat) (w : World) : list World :=
  let b := currentB (gdState w) in
  map (tick_world 20 (400 / Qnat 20) b (gd_update (mainData w) lr b)
         (recorded_world i w) 1)
      (seq 0 20).

Definition iteration_end (lr : Q) (i : nat) (w : World) : World :=
  let b := currentB (gdState w) in
  snap_world 400 20 b (gd_update (mainData w) lr b) (recorded_world i w).

(** The world in which the loop of [runGradientDescent] is entered. *)
Definition run_start (w : World) : World :=
  {| mainData := mainData w;
     gdState := {| currentB := currentB (gdState w); history := [];
                   isRunning := true |};
     learning_rate := learning_rate w;
     iterations := iterations w;
     clock := clock w;
     dom := dom w ++ [IterationsCleared] |}.

(** A world in which a run is in progress: the first suspension of a run
    of two iterations started on the page as loaded. *)
Definition busy_world : World :=
  hd (world0 0.2 2) (suspensions runGradientDescent (world0 0.2 2)).

(** The page as loaded, with [gdState.currentB] set to [b]. *)
Definition world_at (b lr : Q) (n : Z) : World :=
  with_gdState (with_currentB b gdState0) (world0 lr n).

(** ** Chart and table helpers *)

(** [arr.push(e)] *)
Definition push {A : Type} (arr : list A) (e : A) : list A := arr ++ [e].

(** A point handed to the chart; [None] is [null]. *)
Module ChartPoint.
Record t : Type := make { x : option Q; y : option Q }.
End ChartPoint.

Definition generateResidualBars (data : Dataset) (b : Q) : list ChartPoint.t :=
  fold_left
    (fun residualBars point =>
       let residual := Point.y point - b in
       let residualBars :=
         push residualBars
           (ChartPoint.make (Some (Point.x point)) (Some (Point.y point))) in
       let residualBars :=
         push residualBars (ChartPoint.make (Some (Point.x point)) (Some b)) in
       push residualBars (ChartPoint.make None None))
    (points data) [].

(** A number or one of the two infinities, for [Math.min] and [Math.max]
    of no argument. *)
Inductive ExtQ : Type :=
| Finite (q : Q)
| Infinity
| NegInfinity.

(** [Math.min(...l)] and [Math.max(...l)] *)
Definition Math_min (l : list Q) : ExtQ :=
  fold_left
    (fun acc v =>
       match acc with
       | Finite m => Finite (if Qle_bool v m then v else m)
       | Infinity => Finite v
       | NegInfinity => NegInfinity
       end) l Infinity.

Definition Math_max (l : list Q) : ExtQ :=
  fold_left
    (fun acc v =>
       match acc with
       | Finite m => Finite (if Qle_bool m v then v else m)
       | NegInfinity => Finite v
       | Infinity => Infinity
       end) l NegInfinity.

(** [e + q]; an infinity absorbs a finite number. *)
Definition ext_plus (e : ExtQ) (q : Q) : ExtQ :=
  match e with
  | Finite m => Finite (m + q)
  | Infinity => Infinity
  | NegInfinity => NegInfinity
  end.

Module LinePoint.
Record t : Type := make { x : ExtQ; y : Q }.
End LinePoint.

Definition generateLineData (data : Dataset) (b : Q) : list LinePoint.t :=
  let xMin := ext_plus (Math_min (map (fun p => Point.x p) (points data))) (- (1)) in
  let xMax := ext_plus (Math_max (map (fun p => Point.x p) (points data))) 1 in
  [ LinePoint.make xMin b; LinePoint.make xMax b ].

(** [for (let i = ...; i <= steps; i++) range.push(min + i * step)] with
    [todo] turns left. *)
Fixpoint bRange_loop (min step : Q) (todo : nat) (i : Z) (range : list Q)
  : list Q :=
  match todo with
  | O => range
  | S todo' => bRange_loop min step todo' (i + 1) (push range (min + inject_Z i * step))
  end.

Definition generateBRange (min max : Q) (steps : Z) : list Q :=
  let step := (max - min) / inject_Z steps in
  bRange_loop min step (Z.to_nat (steps + 1)) 0 [].

(** The rows [updateResidualTable] puts in the table body: the numbers it
    formats, before formatting. *)
Inductive ResidualRow : Type :=
| PointRow (x y b : Q) (residualClass : string) (residual squaredError : Q)
| SummaryRow (mse : Q).

Definition updateResidualTable (data : Dataset) (b : Q) : list ResidualRow :=
  let tbody := [] in
  let totalSquaredError := 0 in
  let '(totalSquaredError, tbody) :=
    fold_left
      (fun '(totalSquaredError, tbody) point =>
         let residual := Point.y point - b in
         let squaredError := residual * residual in
         let totalSquaredError := totalSquaredError + squaredError in
         let residualClass :=
           if Qlt_le_dec 0 residual then "residual-positive"%string
           else "residual-negative"%string in
         (totalSquaredError,
          push tbody
            (PointRow (Point.x point) (Point.y point) b residualClass
               residual squaredError)))
      (points data) (totalSquaredError, tbody) in
  let mse := totalSquaredError / Qlen (points data) in
  push tbody (SummaryRow mse).

(** The table row of one point, and the three chart points of one
    residual bar. *)
Definition residual_row (b : Q) (point : Point.t) : ResidualRow :=
  let residual := Point.y point - b in
  PointRow (Point.x point) (Point.y point) b
    (if Qlt_le_dec 0 residual then "residual-positive"%string
     else "residual-negative"%string)
    residual (residual * residual).

Definition residual_bar (b : Q) (point : Point.t) : list ChartPoint.t :=
  [ ChartPoint.make (Some (Point.x point)) (Some (Point.y point));
    ChartPoint.make (Some (Point.x point)) (Some b);
    ChartPoint.make None None ].

(** ** Practice datasets

    [Math.random()] is the stream [random]: its [k]-th call returns
    [random k].  A generator takes the index of the next call and returns
    the index after its last one. *)

Fixpoint practice_loop (difficulty : string) (random : nat -> Q)
    (numPoints : Z) (todo : nat) (i : Z) (k : nat) (points : list Point.t)
  : list Point.t * nat :=
  match todo with
  | O => (points, k)
  | S todo' =>
      let x := inject_Z i + 1 in
      let y := 1 + random k * 9 in
      let k := S k in
      let '(y, k) :=
        if String.eqb difficulty "hard" then
          if Qlt_le_dec (random k) 0.2 then
            if (i =? numPoints - 1)%Z then (12 + random (S k) * 8, S (S k))
            else (y, S k)
          else (y, S k)
        else (y, k) in
      practice_loop difficulty random numPoints todo' (i + 1) k
        (push points (Point.make x y))
  end.

Definition generatePracticeDataset (difficulty : string) (random : nat -> Q)
    (k : nat) : Dataset * nat :=
  let countMin := 3%Z in
  let countMax := 4%Z in
  let '(countMin, countMax) :=
    if String.eqb difficulty "easy" then (2%Z, 2%Z)
    else if String.eqb difficulty "hard" then (5%Z, 8%Z)
    else (countMin, countMax) in
  let numPoints :=
    (Qfloor (random k * inject_Z (countMax - countMin + 1)) + countMin)%Z in
  let '(points, k') :=
    practice_loop difficulty random numPoints (Z.to_nat numPoints) 0 (S k) [] in
  ({| points := points;
      optimalB := Some (computeOptimalB {| points := points; optimalB := None |}) |},
   k').

(** The two ranges [generatePracticeDataset] draws y-values from; the upper
    end of the second can be reached once [12 + r * 8] is rounded. *)
Definition base_y (p : Point.t) : Prop := 1 <= Point.y p /\ Point.y p < 10.

Definition outlier_y (p : Point.t) : Prop := 12 <= Point.y p /\ Point.y p <= 20.

(** ** The other handlers of the simulation *)

(** The click handler of the randomize button; [random] is what its call
    of [Math.random()] returns. *)
Definition randomize_click (random : Q) : Async unit :=
  let randomB := random * 20 - 10 in
  dom_write (SliderValue randomB) ;;
  set_currentB randomB ;;
  set_history [] ;;
  updateMainDisplay ;;
  clearIterationsTable.

(** The input handler of the main slider; [value] is
    [parseFloat(e.target.value)]. *)
Definition slider_input (value : Q) : Async unit :=
  set_currentB value ;;
  updateMainDisplay.

(** The body of the iteration table after the DOM writes [d]:
    [addIterationRow] appends a row, [clearIterationsTable] empties it. *)
Definition table_event (rows : list Entry.t) (e : DomEvent) : list Entry.t :=
  match e with
  | IterationRow i b m g => push rows (Entry.make i b m g)
  | IterationsCleared => []
  | SliderValue _ | MainDisplay => rows
  end.

Definition iteration_table (d : list DomEvent) : list Entry.t :=
  fold_left table_event d [].

(** ** The numeric core on binary64 floats

    The same expressions as [computeMSE], [computeMSEDerivative],
    [computeOptimalB] and [interpolate], evaluated with the rounded
    operations of binary64.  [Math.pow (x, 3)] is taken as [x * x * x];
    the values computed with it below are the same however the cube is
    rounded: a sum that rounds back to [oldB] for every factor below one
    half, and a product with the factor 1 of the last turn. *)

Module B64.

Record Point : Type := mkPoint { x : float; y : float }.

(** A counter or a length, as a number (exact below 2^53). *)
Fixpoint of_nat (n : nat) : float :=
  match n with
  | O => 0%float
  | S k => (of_nat k + 1)%float
  end.

Definition reduce_sum (l : list float) : float := fold_left PrimFloat.add l 0%float.

Definition computeMSE (points : list Point) (b : float) : float :=
  let residuals := map (fun point => (y point - b)%float) points in
  let squaredErrors := map (fun r => (r * r)%float) residuals in
  (reduce_sum squaredErrors / of_nat (length points))%float.

Definition computeMSEDerivative (points : list Point) (b : float) : float :=
  let residuals := map (fun point => (y point - b)%float) points in
  let sumResiduals := reduce_sum residuals in
  (- (2 / of_nat (length points)) * sumResiduals)%float.

Definition computeOptimalB (points : list Point) : float :=
  let yValues := map (fun p => y p) points in
  (reduce_sum yValues / of_nat (length yValues))%float.

Definition interpolate (steps : nat) (oldB newB : float) (i : nat) : float :=
  let progress := (of_nat i / of_nat steps)%float in
  let easeProgress :=
    (1 - (1 - progress) * (1 - progress) * (1 - progress))%float in
  (oldB + (newB - oldB) * easeProgress)%float.

End B64.

(** ** Sums *)

Lemma fold_left_Qplus_acc (l : list Q) (a : Q) :
  fold_left Qplus l a == a + Qsum l.
Proof.
  revert a; induction l as [|v l IH]; intros a; simpl.
  - ring.
  - rewrite IH. ring.
Qed.

Lemma reduce_sum_Qsum (l : list Q) : reduce_sum l == Qsum l.
Proof. unfold reduce_sum. rewrite fold_left_Qplus_acc. ring. Qed.

Lemma Qlen_cons {A : Type} (a : A) (l : list A) : Qlen (a :: l) == 1 + Qlen l.
Proof.
  unfold Qlen, Qnat. cbn [length]. rewrite Nat2Z.inj_succ, <- Z.add_1_l.
  rewrite inject_Z_plus. reflexivity.
Qed.

Lemma Qlen_nonneg {A : Type} (l : list A) : 0 <= Qlen l.
Proof.
  unfold Qlen, Qnat. change 0 with (inject_Z 0). rewrite <- Zle_Qle. lia.
Qed.

Lemma Qlen_pos {A : Type} (l : list A) : l <> [] -> 0 < Qlen l.
Proof.
  destruct l as [|a l]; [congruence|]. intros _.
  rewrite Qlen_cons. pose proof (Qlen_nonneg l). lra.
Qed.

Lemma Qlen_map {A B : Type} (f : A -> B) (l : list A) : Qlen (map f l) = Qlen l.
Proof. unfold Qlen. now rewrite length_map. Qed.

(** The sum of the residuals is the sum of the y-values minus [n * b]. *)
Lemma Qsum_residuals (l : list Point.t) (b : Q) :
  Qsum (map (fun point => Point.y point - b) l)
  == Qsum (map Point.y l) - Qlen l * b.
Proof.
  induction l as [|p l IH].
  - cbn [map Qsum]. change (Qlen (@nil Point.t)) with 0. ring.
  - cbn [map Qsum]. rewrite IH, Qlen_cons. ring.
Qed.





(** ** The metric functions *)


(** The derivative is linear in [b], with slope 2 and root at the mean. *)
Lemma computeMSEDerivative_linear (data : Dataset) (b : Q) :
  points data <> [] ->
  computeMSEDerivative data b == 2 * (b - mean_y data).
Proof.
  intros Hne. apply Qlen_pos in Hne.
  unfold computeMSEDerivative, mean_y. cbv zeta.
  rewrite reduce_sum_Qsum, Qsum_residuals.
  field. lra.
Qed.

Lemma computeOptimalB_mean (data : Dataset) :
  computeOptimalB data == mean_y data.
Proof.
  unfold computeOptimalB, mean_y. cbv zeta.
  rewrite reduce_sum_Qsum, Qlen_map. reflexivity.
Qed.









(** ** Running the monad *)

Lemma bind_run {A B : Type} (m : Async A) (k : A -> Async B) (w : World) :
  bind m k w
  = (fst (m w) ++ fst (k (fst (snd (m w))) (snd (snd (m w)))),
     snd (k (fst (snd (m w))) (snd (snd (m w))))).
Proof.
  unfold bind. destruct (m w) as [s1 [a w1]]. cbn [fst snd].
  destruct (k a w1) as [s2 r]. reflexivity.
Qed.

Lemma world_eta (w : World) :
  w = {| mainData := mainData w; gdState := gdState w;
         learning_rate := learning_rate w; iterations := iterations w;
         clock := clock w; dom := dom w |}.
Proof. now destruct w. Qed.

Lemma clock_after_shift (sd t : Q) (k : nat) :
  clock_after sd (t + sd) k = clock_after sd t (S k).
Proof. unfold clock_after. now rewrite Nat.iter_succ_r. Qed.

Lemma clock_after_value (sd t : Q) (k : nat) :
  clock_after sd t k == t + Qnat k * sd.
Proof.
  induction k as [|k IH].
  - cbn. change (Qnat 0) with 0. ring.
  - change (clock_after sd t (S k)) with (clock_after sd t k + sd).
    rewrite IH. unfold Qnat. rewrite Nat2Z.inj_succ, <- Z.add_1_l, inject_Z_plus. ring.
Qed.

(** ** The animation loop *)

Section Animation.

Variables (steps : nat) (stepDuration oldB newB : Q).

Lemma tick_writes_cons (i k : nat) :
  tick_writes steps oldB newB i (S k)
  = [SliderValue (interpolate steps oldB newB i); MainDisplay]
      ++ tick_writes steps oldB newB (S i) k.
Proof. reflexivity. Qed.

Lemma animation_tick_run (i : nat) (w : World) :
  animation_tick steps stepDuration oldB newB i w
  = ([tick_world steps stepDuration oldB newB w i 0],
     (tt, loop_end_world steps stepDuration oldB newB w i 1)).
Proof.
  unfold animation_tick, tick_world, loop_end_world.
  unfold updateMainDisplay, set_currentB, dom_write, modify, await_timeout.
  unfold bind, with_clock, with_dom, with_gdState, tick_writes.
  cbn. rewrite <- !app_assoc. reflexivity.
Qed.

Lemma tick_world_shift (w : World) (i k : nat) :
  tick_world steps stepDuration oldB newB
    (loop_end_world steps stepDuration oldB newB w i 1) (S i) k
  = tick_world steps stepDuration oldB newB w i (S k).
Proof.
  unfold tick_world, loop_end_world.
  cbn [mainData gdState learning_rate iterations clock dom with_currentB
       history isRunning Nat.add].
  rewrite Nat.add_succ_r.
  change (clock_after stepDuration (clock w) 1)
    with (clock w + stepDuration).
  rewrite clock_after_shift.
  rewrite (tick_writes_cons i (S k)), (tick_writes_cons i 0).
  rewrite <- !app_assoc. reflexivity.
Qed.

Lemma loop_end_world_shift (w : World) (i k : nat) :
  loop_end_world steps stepDuration oldB newB
    (loop_end_world steps stepDuration oldB newB w i 1) (S i) k
  = loop_end_world steps stepDuration oldB newB w i (S k).
Proof.
  unfold loop_end_world.
  cbn [mainData gdState learning_rate iterations clock dom Nat.add].
  change (clock_after stepDuration (clock w) 1)
    with (clock w + stepDuration).
  rewrite clock_after_shift.
  rewrite (tick_writes_cons i k), (tick_writes_cons i 0).
  rewrite <- !app_assoc.
  destruct k as [|k].
  - reflexivity.
  - rewrite Nat.add_succ_r. reflexivity.
Qed.

Lemma loop_end_world_0 (w : World) (i : nat) :
  loop_end_world steps stepDuration oldB newB w i 0 = w.
Proof.
  unfold loop_end_world, tick_writes. cbn.
  rewrite app_nil_r. symmetry. apply world_eta.
Qed.

(** The loop is suspended once per turn, in the worlds [tick_world], and
    leaves the world [loop_end_world]. *)
Lemma animation_loop_run (todo i : nat) (w : World) :
  animation_loop steps stepDuration oldB newB todo i w
  = (map (tick_world steps stepDuration oldB newB w i) (seq 0 todo),
     (tt, loop_end_world steps stepDuration oldB newB w i todo)).
Proof.
  revert i w. induction todo as [|todo IH]; intros i w.
  - cbn. now rewrite loop_end_world_0.
  - cbn [animation_loop].
    rewrite bind_run, animation_tick_run.
    cbn [fst snd]. rewrite IH. cbn [fst snd].
    rewrite loop_end_world_shift. f_equal.
    cbn [seq map app]. f_equal.
    rewrite <- seq_shift, map_map.
    apply map_ext. intros k. apply tick_world_shift.
Qed.

End Animation.

Lemma bind_modify {B : Type} (f : World -> World) (k : Async B) (w : World) :
  bind (modify f) (fun _ => k) w = k (f w).
Proof. unfold bind, modify. now destruct (k (f w)). Qed.

Lemma bind_read {A B : Type} (f : World -> A) (k : A -> Async B) (w : World) :
  bind (read f) k w = k (f w) w.
Proof. unfold bind, read. now destruct (k (f w) w). Qed.

(** The whole animation: the suspensions of the loop, then the last
    assignment, then the callback, run from the world the assignment
    leaves. *)
Lemma animate_run (duration : Q) (steps : nat) (oldB newB : Q)
    (onDone : option (Async unit)) (w : World) :
  animate duration steps oldB newB onDone w
  = (map (tick_world steps (duration / Qnat steps) oldB newB w 1) (seq 0 steps)
       ++ fst (match onDone with Some callback => callback | None => ret tt end
                 (snap_world duration steps oldB newB w)),
     snd (match onDone with Some callback => callback | None => ret tt end
            (snap_world duration steps oldB newB w))).
Proof.
  unfold animate. cbv zeta. rewrite bind_run, animation_loop_run.
  cbn [fst snd].
  unfold updateMainDisplay, set_currentB, dom_write.
  rewrite !bind_modify.
  match goal with
  | |- (_ ++ fst (_ ?W), _) = _ =>
      assert (Hsnap : W = snap_world duration steps oldB newB w)
  end.
  { unfold snap_world, loop_end_world, with_dom, with_gdState, with_currentB.
    cbn [mainData gdState learning_rate iterations clock dom].
    rewrite <- !app_assoc. cbn [app].
    destruct steps; reflexivity. }
  rewrite Hsnap. reflexivity.
Qed.

(** ** One iteration, Step Once and Run *)

Lemma animateGradientDescentStep_run (oldB newB : Q) (w : World) :
  animateGradientDescentStep oldB newB (Some (ret tt)) w
  = (map (tick_world 20 (400 / Qnat 20) oldB newB w 1) (seq 0 20),
     (tt, snap_world 400 20 oldB newB w)).
Proof.
  unfold animateGradientDescentStep. cbv zeta. rewrite animate_run.
  unfold ret. cbn [fst snd]. now rewrite app_nil_r.
Qed.

Lemma run_iteration_run (lr : Q) (i : nat) (w : World) :
  run_iteration lr i w = (iteration_suspensions lr i w, (tt, iteration_end lr i w)).
Proof.
  unfold run_iteration. rewrite !bind_read. cbv zeta.
  unfold history_push, addIterationRow, dom_write. rewrite !bind_modify.
  rewrite animateGradientDescentStep_run. reflexivity.
Qed.

Lemma stepGradientDescent_run (w : World) :
  stepGradientDescent w
  = (iteration_suspensions (learning_rate w) (length (history (gdState w))) w,
     (tt, iteration_end (learning_rate w) (length (history (gdState w))) w)).
Proof.
  unfold stepGradientDescent. rewrite !bind_read. cbv zeta.
  unfold history_push, addIterationRow, dom_write. rewrite !bind_modify.
  rewrite animateGradientDescentStep_run. reflexivity.
Qed.

Lemma iteration_suspensions_isRunning (lr : Q) (i : nat) (w s : World) :
  In s (iteration_suspensions lr i w) ->
  isRunning (gdState s) = isRunning (gdState w).
Proof.
  unfold iteration_suspensions. cbv zeta. rewrite in_map_iff.
  intros [k [<- _]]. reflexivity.
Qed.

(** What the loop of [runGradientDescent] leaves: [todo] updates of the
    parameter and one history entry per turn, numbered from [i]. *)
Lemma run_loop_final (lr : Q) (todo i : nat) (w : World) :
  let data := mainData w in
  let b0 := currentB (gdState w) in
  let w' := final (run_loop lr todo i) w in
  mainData w' = data
  /\ currentB (gdState w') = gd_iterate data lr b0 todo
  /\ history (gdState w')
     = history (gdState w)
       ++ map (fun k => entry_at data (k + i) (gd_iterate data lr b0 k))
              (seq 0 todo)
  /\ isRunning (gdState w') = isRunning (gdState w)
  /\ learning_rate w' = learning_rate w
  /\ iterations w' = iterations w.
Proof.
  cbv zeta. unfold final. revert i w.
  induction todo as [|todo IH]; intros i w.
  - cbn. rewrite app_nil_r. repeat split; reflexivity.
  - cbn [run_loop]. rewrite bind_run, run_iteration_run. cbn [fst snd].
    destruct (IH (S i) (iteration_end lr i w))
      as (Hd & Hb & Hh & Hr & Hl & Hn).
    rewrite Hd, Hb, Hh, Hr, Hl, Hn. clear IH Hd Hb Hh Hr Hl Hn.
    cbn [iteration_end snap_world recorded_world mainData gdState
         with_currentB with_history currentB history isRunning
         learning_rate iterations].
    repeat split.
    + unfold gd_iterate. now rewrite Nat.iter_succ_r.
    + rewrite <- app_assoc. f_equal. cbn [seq map app]. f_equal.
      rewrite <- seq_shift, map_map. apply map_ext. intros k.
      rewrite Nat.add_succ_r. unfold gd_iterate.
      now rewrite Nat.iter_succ_r.
Qed.

Lemma run_loop_suspensions (lr : Q) (todo i : nat) (w : World) :
  length (suspensions (run_loop lr todo i) w) = (20 * todo)%nat
  /\ forall s, In s (suspensions (run_loop lr todo i) w) ->
               isRunning (gdState s) = isRunning (gdState w).
Proof.
  unfold suspensions. revert i w.
  induction todo as [|todo IH]; intros i w.
  - cbn. split; [reflexivity | tauto].
  - cbn [run_loop]. rewrite bind_run, run_iteration_run. cbn [fst snd].
    destruct (IH (S i) (iteration_end lr i w)) as [Hlen Hrun]. split.
    + rewrite length_app, Hlen. unfold iteration_suspensions.
      cbv zeta. rewrite length_map, length_seq. lia.
    + intros s Hs. apply in_app_or in Hs. destruct Hs as [Hs | Hs].
      * now apply iteration_suspensions_isRunning in Hs.
      * apply Hrun in Hs. exact Hs.
Qed.

(** The guard of [runGradientDescent]. *)
Lemma runGradientDescent_guarded (w : World) :
  isRunning (gdState w) = true -> runGradientDescent w = ([], (tt, w)).
Proof.
  intros H. unfold runGradientDescent. rewrite bind_read, H. reflexivity.
Qed.

Lemma runGradientDescent_run (w : World) :
  isRunning (gdState w) = false ->
  runGradientDescent w
  = (suspensions (run_loop (learning_rate w) (Z.to_nat (iterations w)) 0)
       (run_start w),
     (tt,
      with_gdState
        (with_isRunning false
           (gdState
              (final (run_loop (learning_rate w) (Z.to_nat (iterations w)) 0)
                 (run_start w))))
        (final (run_loop (learning_rate w) (Z.to_nat (iterations w)) 0)
           (run_start w)))).
Proof.
  intros H. unfold runGradientDescent. rewrite bind_read, H.
  unfold set_isRunning at 1. rewrite bind_modify, !bind_read.
  unfold set_history, clearIterationsTable, dom_write.
  rewrite !bind_modify, bind_run.
  cbn [learning_rate iterations with_gdState with_dom].
  unfold set_isRunning, modify, suspensions, final. cbn [fst snd].
  rewrite app_nil_r. reflexivity.
Qed.

(** ** Suspended worlds, by position *)

Lemma nth_error_map_seq {A : Type} (f : nat -> A) (n k : nat) :
  (k < n)%nat -> nth_error (map f (seq 0 n)) k = Some (f k).
Proof.
  intros Hk. rewrite nth_error_map, nth_error_seq.
  destruct (Nat.ltb_spec k n); [reflexivity | lia].
Qed.

Lemma animate_suspension_nth (duration : Q) (steps : nat) (oldB newB : Q)
    (onDone : option (Async unit)) (w : World) (k : nat) :
  (k < steps)%nat ->
  nth_error (suspensions (animate duration steps oldB newB onDone) w) k
  = Some (tick_world steps (duration / Qnat steps) oldB newB w 1 k).
Proof.
  intros Hk. unfold suspensions. rewrite animate_run. cbn [fst].
  rewrite nth_error_app1 by now rewrite length_map, length_seq.
  now apply nth_error_map_seq.
Qed.

Lemma stepGradientDescent_suspension_nth (w : World) (k : nat) :
  (k < 20)%nat ->
  nth_error (suspensions stepGradientDescent w) k
  = Some (tick_world 20 (400 / Qnat 20) (currentB (gdState w))
            (gd_update (mainData w) (learning_rate w) (currentB (gdState w)))
            (recorded_world (length (history (gdState w))) w) 1 k).
Proof.
  intros Hk. unfold suspensions. rewrite stepGradientDescent_run. cbn [fst].
  unfold iteration_suspensions. cbv zeta. now apply nth_error_map_seq.
Qed.

(** ** The easing curve *)

Lemma Qnat_lt (i j : nat) : (i < j)%nat -> Qnat i < Qnat j.
Proof. intros H. unfold Qnat. rewrite <- Zlt_Qlt. lia. Qed.

Lemma Qnat_le (i j : nat) : (i <= j)%nat -> Qnat i <= Qnat j.
Proof. intros H. unfold Qnat. rewrite <- Zle_Qle. lia. Qed.

Lemma progress_bounds (steps i : nat) :
  (1 <= i)%nat -> (i <= steps)%nat ->
  0 < Qnat i / Qnat steps /\ Qnat i / Qnat steps <= 1.
Proof.
  intros H1 H2.
  assert (Hi : 0 < Qnat i) by (apply (Qnat_lt 0 i); lia).
  assert (Hs : 0 < Qnat steps) by (apply (Qnat_lt 0 steps); lia).
  pose proof (Qnat_le i steps H2) as Hle.
  split.
  - apply Qlt_shift_div_l; [exact Hs | lra].
  - apply Qle_shift_div_r; [exact Hs | lra].
Qed.

Lemma progress_lt (steps i j : nat) :
  (i < j)%nat -> (j <= steps)%nat ->
  Qnat i / Qnat steps < Qnat j / Qnat steps.
Proof.
  intros H1 H2.
  assert (Hs : 0 < Qnat steps) by (apply (Qnat_lt 0 steps); lia).
  pose proof (Qnat_lt i j H1) as Hlt.
  unfold Qdiv. apply Qmult_lt_compat_r; [now apply Qinv_lt_0_compat | exact Hlt].
Qed.

Lemma Math_pow_3 (x : Q) : Math_pow x 3 == x * x * x.
Proof. unfold Math_pow. ring. Qed.

(** Cubing is strictly increasing on the non-negative numbers. *)
Lemma cube_lt (a c : Q) : 0 <= a -> a < c -> a * a * a < c * c * c.
Proof.
  intros Ha Hac.
  assert (H1 : 0 <= a * a) by nra.
  assert (H2 : a * a < c * c) by nra.
  nra.
Qed.

Lemma interpolate_eased (steps : nat) (oldB newB : Q) (i : nat) :
  interpolate steps oldB newB i
  == oldB + (newB - oldB)
            * (1 - (1 - Qnat i / Qnat steps) * (1 - Qnat i / Qnat steps)
                   * (1 - Qnat i / Qnat steps)).
Proof. unfold interpolate. cbv zeta. now rewrite Math_pow_3. Qed.

(** The last turn of the loop already computes the target. *)
Lemma interpolate_last (steps : nat) (oldB newB : Q) :
  (1 <= steps)%nat -> interpolate steps oldB newB steps == newB.
Proof.
  intros H. rewrite interpolate_eased.
  assert (Hs : 0 < Qnat steps) by (apply (Qnat_lt 0 steps); lia).
  field. lra.
Qed.

Lemma interpolate_lt (steps : nat) (oldB newB : Q) (i j : nat) :
  oldB < newB -> (1 <= i)%nat -> (i < j)%nat -> (j <= steps)%nat ->
  interpolate steps oldB newB i < interpolate steps oldB newB j.
Proof.
  intros Hb Hi Hij Hj. rewrite !interpolate_eased.
  pose proof (progress_lt steps i j Hij Hj) as Hlt.
  destruct (progress_bounds steps j) as [_ Hj1]; [lia | lia |].
  set (p := Qnat i / Qnat steps) in *. set (q := Qnat j / Qnat steps) in *.
  assert (Hc : (1 - q) * (1 - q) * (1 - q) < (1 - p) * (1 - p) * (1 - p))
    by (apply cube_lt; lra).
  nra.
Qed.

Lemma interpolate_between (steps : nat) (oldB newB : Q) (i : nat) :
  oldB < newB -> (1 <= i)%nat -> (i <= steps)%nat ->
  oldB < interpolate steps oldB newB i /\ interpolate steps oldB newB i <= newB.
Proof.
  intros Hb Hi Hs. rewrite !interpolate_eased.
  destruct (progress_bounds steps i Hi Hs) as [H0 H1].
  set (p := Qnat i / Qnat steps) in *.
  assert (Hc : (1 - p) * (1 - p) * (1 - p) < 1 * 1 * 1)
    by (apply cube_lt; lra).
  assert (Hn : 0 <= (1 - p) * (1 - p) * (1 - p)).
  { assert (0 <= (1 - p) * (1 - p)) by nra. nra. }
  split; nra.
Qed.

(** ** The controllers *)

Lemma runGradientDescent_final (w : World) :
  isRunning (gdState w) = false ->
  let data := mainData w in
  let lr := learning_rate w in
  let b0 := currentB (gdState w) in
  let n := Z.to_nat (iterations w) in
  let w' := final runGradientDescent w in
  mainData w' = data
  /\ currentB (gdState w') = gd_iterate data lr b0 n
  /\ history (gdState w')
     = map (fun i => entry_at data i (gd_iterate data lr b0 i)) (seq 0 n)
  /\ isRunning (gdState w') = false.
Proof.
  intros H. cbv zeta. unfold final at 1 2 3 4.
  rewrite (runGradientDescent_run w H). cbn [fst snd].
  destruct (run_loop_final (learning_rate w) (Z.to_nat (iterations w)) 0
              (run_start w)) as (Hd & Hb & Hh & _).
  cbn [with_gdState with_isRunning mainData gdState currentB history isRunning].
  rewrite Hd, Hb, Hh. cbn [run_start mainData gdState currentB history app].
  repeat split. apply map_ext. intros k. now rewrite Nat.add_0_r.
Qed.

(** C1.  One step, whether made by Step Once or by a turn of the Run
    loop, computes the gradient [computeMSEDerivative data b] at the
    current [b] and leaves [b - learningRate * gradient] in
    [gdState.currentB], as that very expression; the dataset is not
    written.  A run that is not refused by its guard applies this rule
    once per iteration. *)
Theorem gradient_step_update_rule (w : World) :
  let data := mainData w in
  let b := currentB (gdState w) in
  let lr := learning_rate w in
  (currentB (gdState (final stepGradientDescent w))
     = b - lr * computeMSEDerivative data b
   /\ (exists e, history (gdState (final stepGradientDescent w))
                 = history (gdState w) ++ [e]
                 /\ Entry.gradient e = computeMSEDerivative data b)
   /\ mainData (final stepGradientDescent w) = data)
  /\ (forall (learningRate : Q) (i : nat),
        currentB (gdState (final (run_iteration learningRate i) w))
          = b - learningRate * computeMSEDerivative data b
        /\ (exists e, history (gdState (final (run_iteration learningRate i) w))
                      = history (gdState w) ++ [e]
                      /\ Entry.gradient e = computeMSEDerivative data b)
        /\ mainData (final (run_iteration learningRate i) w) = data)
  /\ (isRunning (gdState w) = false ->
        currentB (gdState (final runGradientDescent w))
          = Nat.iter (Z.to_nat (iterations w))
              (fun b' => b' - lr * computeMSEDerivative data b') b
        /\ mainData (final runGradientDescent w) = data).
Proof.
  cbv zeta. split; [|split].
  - unfold final. rewrite stepGradientDescent_run. cbn [fst snd].
    repeat split. eexists. split; reflexivity.
  - intros learningRate i. unfold final. rewrite run_iteration_run.
    cbn [fst snd]. repeat split. eexists. split; reflexivity.
  - intros H. destruct (runGradientDescent_final w H) as (Hd & Hb & _).
    split; [exact Hb | exact Hd].
Qed.

Lemma gradient_step_update_rule_witness :
  currentB (gdState (final runGradientDescent (world0 0.2 2)))
  = Nat.iter 2 (fun b' => b' - 0.2 * computeMSEDerivative mainData1 b') 3
  /\ mainData (final runGradientDescent (world0 0.2 2)) = mainData1.
Proof.
  destruct (gradient_step_update_rule (world0 0.2 2)) as (_ & _ & Hrun).
  apply Hrun. reflexivity.
Defined.

(** C4, as the code has it.  A run started while [isRunning] is false
    clears the history and leaves exactly [n] entries, [n] the iteration
    count: entry [i] is numbered [i] and holds the parameter, the error
    and the gradient at the start of iteration [i], before its update. *)
Theorem run_history_when_idle (w : World) (n : nat) :
  isRunning (gdState w) = false ->
  iterations w = Z.of_nat n ->
  let data := mainData w in
  let b_at := gd_iterate data (learning_rate w) (currentB (gdState w)) in
  let h := history (gdState (final runGradientDescent w)) in
  length h = n
  /\ (forall i : nat, (i < n)%nat ->
        nth_error h i
        = Some (Entry.make i (b_at i) (computeMSE data (b_at i))
                  (computeMSEDerivative data (b_at i))))
  /\ isRunning (gdState (final runGradientDescent w)) = false.
Proof.
  intros Hidle Hn. cbv zeta.
  destruct (runGradientDescent_final w Hidle) as (_ & _ & Hh & Hr).
  rewrite Hh, Hn, Nat2Z.id. split; [|split].
  - now rewrite length_map, length_seq.
  - intros i Hi. now rewrite nth_error_map_seq.
  - exact Hr.
Qed.

Lemma run_history_when_idle_witness :
  let w := world0 0.2 15 in
  let h := history (gdState (final runGradientDescent w)) in
  length h = 15%nat
  /\ (forall i : nat, (i < 15)%nat ->
        nth_error h i
        = Some (Entry.make i (gd_iterate mainData1 0.2 3 i)
                  (computeMSE mainData1 (gd_iterate mainData1 0.2 3 i))
                  (computeMSEDerivative mainData1
                     (gd_iterate mainData1 0.2 3 i))))
  /\ isRunning (gdState (final runGradientDescent w)) = false.
Proof.
  apply (run_history_when_idle (world0 0.2 15) 15); reflexivity.
Defined.

(** C4 as stated fails when a run is already in progress: the call
    returns at the guard, the history is neither cleared nor brought to
    the iteration count. *)
Lemma run_history_counterexample :
  points (mainData busy_world) <> []
  /\ iterations busy_world = 2%Z
  /\ isRunning (gdState busy_world) = true
  /\ runGradientDescent busy_world = ([], (tt, busy_world))
  /\ length (history (gdState (final runGradientDescent busy_world))) = 1%nat
  /\ length (history (gdState (final runGradientDescent busy_world)))
     <> Z.to_nat (iterations busy_world).
Proof.
  assert (Hbusy : isRunning (gdState busy_world) = true)
    by (vm_compute; reflexivity).
  assert (Hp : length (points (mainData busy_world)) = 2%nat)
    by (vm_compute; reflexivity).
  assert (Hh : length (history (gdState busy_world)) = 1%nat)
    by (vm_compute; reflexivity).
  assert (Hn : iterations busy_world = 2%Z) by (vm_compute; reflexivity).
  pose proof (runGradientDescent_guarded busy_world Hbusy) as Hrun.
  assert (Hfin : final runGradientDescent busy_world = busy_world).
  { unfold final. apply (f_equal (fun r => snd (snd r))) in Hrun.
    exact Hrun. }
  split; [|split; [|split; [|split; [|split]]]].
  - intros Hnil. apply (f_equal (@length Point.t)) in Hnil.
    change (length (points (mainData busy_world)) = 0%nat) in Hnil.
    pose proof (eq_trans (eq_sym Hp) Hnil) as Habs. discriminate Habs.
  - exact Hn.
  - exact Hbusy.
  - exact Hrun.
  - replace (final runGradientDescent busy_world) with busy_world.
    exact Hh.
  - replace (final runGradientDescent busy_world) with busy_world.
    replace (iterations busy_world) with 2%Z.
    replace (length (history (gdState busy_world))) with 1%nat.
    intros Habs. vm_compute in Habs. discriminate Habs.
Qed.

(** ** The animation *)

Lemma tick_world_clock (steps : nat) (sd oldB newB : Q) (w : World) (k : nat) :
  clock (tick_world steps sd oldB newB w 1 k) == clock w + Qnat k * sd.
Proof. cbn [tick_world clock]. apply clock_after_value. Qed.

Lemma step_duration_pos (duration : Q) (steps : nat) :
  0 < duration -> (1 <= steps)%nat -> 0 < duration / Qnat steps.
Proof.
  intros Hd Hs. apply Qlt_shift_div_l; [apply (Qnat_lt 0 steps); lia | lra].
Qed.

(** C5.  An animation is suspended exactly [steps] times, once per turn
    of its loop; the turns come in order, each one [stepDuration] later
    than the one before, and each writes its value to the slider and
    redraws once.  After the last turn the target is written and drawn
    once more, and then the callback runs, exactly once, from the world
    this leaves. *)
Theorem animate_ticks_then_callback (duration : Q) (steps : nat)
    (oldB newB : Q) (callback : Async unit) (w : World) :
  0 < duration ->
  let stepDuration := duration / Qnat steps in
  let run := animate duration steps oldB newB (Some callback) in
  let snapped := snap_world duration steps oldB newB w in
  exists ticks : list World,
    length ticks = steps
    /\ suspensions run w = ticks ++ suspensions callback snapped
    /\ final run w = final callback snapped
    /\ (forall (k : nat) (s : World), nth_error ticks k = Some s ->
          clock s == clock w + Qnat k * stepDuration
          /\ dom s
             = dom w
               ++ flat_map
                    (fun i =>
                       [SliderValue (interpolate steps oldB newB i); MainDisplay])
                    (seq 1 (S k)))
    /\ (forall (j k : nat) (sj sk : World),
          (j < k)%nat ->
          nth_error ticks j = Some sj -> nth_error ticks k = Some sk ->
          clock sj < clock sk)
    /\ (forall s : World, In s ticks -> clock s < clock snapped)
    /\ dom snapped
       = dom w
         ++ flat_map
              (fun i =>
                 [SliderValue (interpolate steps oldB newB i); MainDisplay])
              (seq 1 steps)
         ++ [SliderValue newB; MainDisplay].
Proof.
  intros Hd. cbv zeta.
  set (sd := duration / Qnat steps).
  exists (map (tick_world steps sd oldB newB w 1) (seq 0 steps)).
  assert (Hnth : forall k s,
             nth_error (map (tick_world steps sd oldB newB w 1) (seq 0 steps)) k
             = Some s ->
             (k < steps)%nat /\ s = tick_world steps sd oldB newB w 1 k).
  { intros k s Hk.
    assert (Hlt : (k < steps)%nat).
    { assert (Hl : nth_error
                     (map (tick_world steps sd oldB newB w 1) (seq 0 steps)) k
                   <> None) by congruence.
      apply nth_error_Some in Hl.
      now rewrite length_map, length_seq in Hl. }
    rewrite (nth_error_map_seq _ _ _ Hlt) in Hk. split; congruence. }
  split; [|split; [|split; [|split; [|split; [|split]]]]].
  - now rewrite length_map, length_seq.
  - unfold suspensions. rewrite animate_run. reflexivity.
  - unfold final. rewrite animate_run. reflexivity.
  - intros k s Hk. apply Hnth in Hk. destruct Hk as [_ ->].
    split; [apply tick_world_clock | reflexivity].
  - intros j k sj sk Hjk Hj Hk.
    apply Hnth in Hj. apply Hnth in Hk.
    destruct Hj as [_ ->]. destruct Hk as [Hks ->].
    rewrite !tick_world_clock.
    assert (Hsd : 0 < sd) by (apply step_duration_pos; [exact Hd | lia]).
    pose proof (Qnat_lt j k Hjk). nra.
  - intros s Hs. apply In_nth_error in Hs. destruct Hs as [k Hk].
    apply Hnth in Hk. destruct Hk as [Hks ->].
    rewrite tick_world_clock. cbn [snap_world clock]. fold sd.
    rewrite clock_after_value.
    assert (Hsd : 0 < sd) by (apply step_duration_pos; [exact Hd | lia]).
    pose proof (Qnat_lt k steps Hks). nra.
  - reflexivity.
Qed.

Lemma animate_ticks_then_callback_witness :
  exists ticks : list World,
    length ticks = 20%nat
    /\ suspensions (animateGradientDescentStep 3 5 (Some (ret tt)))
         (world0 0.2 15)
       = ticks ++ suspensions (ret tt) (snap_world 400 20 3 5 (world0 0.2 15))
    /\ final (animateGradientDescentStep 3 5 (Some (ret tt))) (world0 0.2 15)
       = final (ret tt) (snap_world 400 20 3 5 (world0 0.2 15)).
Proof.
  assert (Hd : 0 < 400) by reflexivity.
  destruct (animate_ticks_then_callback 400 20 3 5 (ret tt) (world0 0.2 15) Hd)
    as (ticks & Hlen & Hs & Hf & _).
  exists ticks. split; [exact Hlen | split; [exact Hs | exact Hf]].
Defined.

Lemma tick_world_dom_last (steps : nat) (sd oldB newB : Q) (w : World) (k : nat) :
  exists d : list DomEvent,
    dom (tick_world steps sd oldB newB w 1 k)
    = d ++ [SliderValue (interpolate steps oldB newB (S k)); MainDisplay].
Proof.
  cbn [tick_world dom]. unfold tick_writes.
  rewrite seq_S, flat_map_app. cbn [flat_map app Nat.add].
  rewrite app_assoc. eexists. reflexivity.
Qed.

(** C6.  At turn [i] of [1 .. steps] the animation stores, writes to the
    slider and draws [oldB + (newB - oldB) * (1 - (1 - i/steps)^3)]; what
    the animation leaves in place is [newB] itself; and from 3 to 5 in 20
    turns, the value of turn 20 is 5. *)
Theorem animate_tick_values (duration : Q) (steps : nat) (oldB newB : Q)
    (onDone : option (Async unit)) (w : World) :
  (1 <= steps)%nat ->
  (forall i : nat, (1 <= i <= steps)%nat ->
     exists s : World,
       nth_error (suspensions (animate duration steps oldB newB onDone) w) (i - 1)
       = Some s
       /\ currentB (gdState s)
          = oldB + (newB - oldB) * (1 - (1 - Qnat i / Qnat steps) ^ 3)
       /\ exists d : list DomEvent,
            dom s = d ++ [SliderValue (currentB (gdState s)); MainDisplay])
  /\ (exists s : World,
        nth_error (suspensions (animate duration 20 3 5 onDone) w) 19 = Some s
        /\ currentB (gdState s) == 5)
  /\ currentB (gdState (final (animate duration steps oldB newB None) w)) = newB
  /\ currentB
       (gdState (final (animate duration steps oldB newB (Some (ret tt))) w))
     = newB.
Proof.
  intros Hs. split; [|split; [|split]].
  - intros i Hi.
    exists (tick_world steps (duration / Qnat steps) oldB newB w 1 (i - 1)).
    split; [apply animate_suspension_nth; lia|].
    destruct (tick_world_dom_last steps (duration / Qnat steps) oldB newB w
                (i - 1)) as [d Hd].
    replace (S (i - 1)) with i in Hd by lia.
    cbn [tick_world gdState with_currentB currentB] in *.
    replace (i - 1 + 1)%nat with i by lia.
    split; [reflexivity | exists d; exact Hd].
  - exists (tick_world 20 (duration / Qnat 20) 3 5 w 1 19).
    split; [apply animate_suspension_nth; lia|].
    cbn [tick_world gdState with_currentB currentB Nat.add].
    apply interpolate_last. lia.
  - unfold final. rewrite animate_run. reflexivity.
  - unfold final. rewrite animate_run. reflexivity.
Qed.

Lemma animate_tick_values_witness :
  (exists s : World,
     nth_error
       (suspensions (animateGradientDescentStep 3 5 (Some (ret tt)))
          (world0 0.2 15)) 19
     = Some s
     /\ currentB (gdState s) == 5)
  /\ currentB
       (gdState
          (final (animateGradientDescentStep 3 5 (Some (ret tt)))
             (world0 0.2 15)))
     = 5.
Proof.
  assert (Hs : (1 <= 20)%nat) by lia.
  destruct (animate_tick_values 400 20 3 5 (Some (ret tt)) (world0 0.2 15) Hs)
    as (_ & Hlast & _ & Hfinal).
  split; [exact Hlast | exact Hfinal].
Defined.

(** C7, as the code has it.  When [oldB < newB] the values of the turns
    never decrease from one turn to a later one, and none lies below
    [oldB]. *)
Theorem animate_ticks_nondecreasing (duration : Q) (steps : nat)
    (oldB newB : Q) (onDone : option (Async unit)) (w : World) (i j : nat) :
  oldB < newB ->
  (1 <= i)%nat -> (i <= j)%nat -> (j <= steps)%nat ->
  exists si sj : World,
    nth_error (suspensions (animate duration steps oldB newB onDone) w) (i - 1)
    = Some si
    /\ nth_error (suspensions (animate duration steps oldB newB onDone) w) (j - 1)
       = Some sj
    /\ currentB (gdState si) <= currentB (gdState sj)
    /\ oldB <= currentB (gdState si)
    /\ oldB <= currentB (gdState sj).
Proof.
  intros Hb Hi Hij Hj.
  exists (tick_world steps (duration / Qnat steps) oldB newB w 1 (i - 1)),
         (tick_world steps (duration / Qnat steps) oldB newB w 1 (j - 1)).
  split; [apply animate_suspension_nth; lia|].
  split; [apply animate_suspension_nth; lia|].
  cbn [tick_world gdState with_currentB currentB].
  replace (i - 1 + 1)%nat with i by lia.
  replace (j - 1 + 1)%nat with j by lia.
  destruct (interpolate_between steps oldB newB i Hb) as [Hi1 _]; [lia|lia|].
  destruct (interpolate_between steps oldB newB j Hb) as [Hj1 _]; [lia|lia|].
  split; [|split; lra].
  destruct (Nat.eq_dec i j) as [-> | Hne]; [lra|].
  assert (Hlt : (i < j)%nat) by lia.
  pose proof (interpolate_lt steps oldB newB i j Hb Hi Hlt Hj). lra.
Qed.

Lemma animate_ticks_nondecreasing_witness :
  exists si sj : World,
    nth_error
      (suspensions (animateGradientDescentStep 3 5 (Some (ret tt)))
         (world0 0.2 15)) 0
    = Some si
    /\ nth_error
         (suspensions (animateGradientDescentStep 3 5 (Some (ret tt)))
            (world0 0.2 15)) 19
       = Some sj
    /\ currentB (gdState si) <= currentB (gdState sj).
Proof.
  assert (Hb : 3 < 5) by reflexivity.
  assert (H1 : (1 <= 1)%nat) by lia.
  assert (H2 : (1 <= 20)%nat) by lia.
  assert (H3 : (20 <= 20)%nat) by lia.
  destruct (animate_ticks_nondecreasing 400 20 3 5 (Some (ret tt))
              (world0 0.2 15) 1 20 Hb H1 H2 H3)
    as (si & sj & Hsi & Hsj & Hle & _).
  exists si, sj. split; [exact Hsi | split; [exact Hsj | exact Hle]].
Defined.

(** C7 as stated fails on binary64 floats.  From 1 to the next float
    above 1 the values of turns 1 and 2 both round back to 1: they do not
    increase and do not lie above [oldB].  And a turn can end above
    [newB]: from -19.822 to 6.59e-6 the value of turn 20 does. *)
Lemma animate_ticks_strict_counterexample :
  PrimFloat.ltb 1 0x1.0000000000001p+0 = true
  /\ B64.interpolate 20 1 0x1.0000000000001p+0 1 = 1%float
  /\ B64.interpolate 20 1 0x1.0000000000001p+0 2 = 1%float
  /\ PrimFloat.ltb (B64.interpolate 20 1 0x1.0000000000001p+0 1)
                   (B64.interpolate 20 1 0x1.0000000000001p+0 2)
     = false
  /\ PrimFloat.ltb (-0x1.3d281b93dcd79p+4) 0x1.ba40a78fe8dc8p-18 = true
  /\ PrimFloat.ltb 0x1.ba40a78fe8dc8p-18
       (B64.interpolate 20 (-0x1.3d281b93dcd79p+4) 0x1.ba40a78fe8dc8p-18 20)
     = true.
Proof. repeat split; vm_compute; reflexivity. Qed.

(** ** Step Once *)

(** C8, as the code has it.  During Step Once the history entry is
    pushed first; then every turn [i] of the animation assigns its
    interpolated value to [gdState.currentB]; when the animation has
    completed, [gdState.currentB] is the new value
    [b - learningRate * gradient]. *)
Theorem stepGradientDescent_currentB_follows_ticks (w : World) :
  let b := currentB (gdState w) in
  let newB := b - learning_rate w * computeMSEDerivative (mainData w) b in
  length (suspensions stepGradientDescent w) = 20%nat
  /\ (forall i : nat, (1 <= i <= 20)%nat ->
        exists s : World,
          nth_error (suspensions stepGradientDescent w) (i - 1) = Some s
          /\ currentB (gdState s) = interpolate 20 b newB i
          /\ length (history (gdState s)) = S (length (history (gdState w))))
  /\ currentB (gdState (final stepGradientDescent w)) = newB.
Proof.
  cbv zeta. split; [|split].
  - unfold suspensions. rewrite stepGradientDescent_run. cbn [fst].
    unfold iteration_suspensions. cbv zeta.
    now rewrite length_map, length_seq.
  - intros i Hi. eexists. split.
    + apply stepGradientDescent_suspension_nth. lia.
    + cbn [tick_world recorded_world gdState with_currentB with_history
           currentB history].
      replace (i - 1 + 1)%nat with i by lia.
      split; [reflexivity|]. rewrite length_app. cbn [length]. lia.
  - unfold final. rewrite stepGradientDescent_run. reflexivity.
Qed.

(** C8 as stated fails on the page as loaded with learning rate 0.2
    ([b = 3], new value 3.6): at the first suspension [gdState.currentB]
    already holds the interpolated 3.085575, and at the twentieth, before
    the animation has completed, it equals the new value. *)
Lemma step_currentB_counterexample :
  exists s1 s20 : World,
    nth_error (suspensions stepGradientDescent (world0 0.2 15)) 0 = Some s1
    /\ nth_error (suspensions stepGradientDescent (world0 0.2 15)) 19
       = Some s20
    /\ currentB (gdState (world0 0.2 15)) == 3
    /\ currentB (gdState s1) == 3.085575
    /\ currentB (gdState s20) == 3.6
    /\ currentB (gdState (final stepGradientDescent (world0 0.2 15)))
       == 3.6.
Proof.
  assert (H0 : (0 < 20)%nat) by lia.
  assert (H19 : (19 < 20)%nat) by lia.
  pose proof (stepGradientDescent_suspension_nth (world0 0.2 15) 0 H0) as E1.
  pose proof (stepGradientDescent_suspension_nth (world0 0.2 15) 19 H19)
    as E20.
  eexists. eexists.
  split; [exact E1 | split; [exact E20 |]].
  split; [|split; [|split]]; vm_compute; reflexivity.
Qed.

Lemma stepGradientDescent_history (w : World) :
  history (gdState (final stepGradientDescent w))
  = history (gdState w)
    ++ [entry_at (mainData w) (length (history (gdState w)))
          (currentB (gdState w))].
Proof. unfold final. rewrite stepGradientDescent_run. reflexivity. Qed.

Lemma stepGradientDescent_repeated (w : World) (k : nat) :
  map Entry.iteration
    (history (gdState (Nat.iter k (final stepGradientDescent) w)))
  = map Entry.iteration (history (gdState w))
    ++ seq (length (history (gdState w))) k.
Proof.
  induction k as [|k IH].
  - cbn. now rewrite app_nil_r.
  - change (Nat.iter (S k) (final stepGradientDescent) w)
      with (final stepGradientDescent (Nat.iter k (final stepGradientDescent) w)).
    set (wk := Nat.iter k (final stepGradientDescent) w) in *.
    rewrite stepGradientDescent_history, map_app, IH.
    cbn [map entry_at Entry.iteration].
    rewrite <- (length_map Entry.iteration (history (gdState wk))), IH.
    rewrite length_app, length_map, length_seq.
    rewrite seq_S, app_assoc. reflexivity.
Qed.

Lemma runGradientDescent_suspended_running (w s : World) :
  isRunning (gdState w) = false ->
  In s (suspensions runGradientDescent w) ->
  isRunning (gdState s) = true.
Proof.
  intros H Hs. unfold suspensions in Hs.
  rewrite (runGradientDescent_run w H) in Hs. cbn [fst] in Hs.
  apply (run_loop_suspensions (learning_rate w) (Z.to_nat (iterations w)) 0
           (run_start w)) in Hs.
  exact Hs.
Qed.

(** C10.  Step Once pushes exactly one entry, numbered by the length the
    history had, keeps the entries that were there and does not read or
    write [isRunning]; repeated from an empty history it numbers its
    entries 0, 1, 2, ...; and it does the same in a world in which a run
    is suspended. *)
Theorem stepGradientDescent_appends_entry (w : World) :
  (exists e : Entry.t,
     history (gdState (final stepGradientDescent w))
     = history (gdState w) ++ [e]
     /\ Entry.iteration e = length (history (gdState w))
     /\ Entry.b e = currentB (gdState w))
  /\ isRunning (gdState (final stepGradientDescent w)) = isRunning (gdState w)
  /\ (forall k : nat,
        map Entry.iteration
          (history (gdState (Nat.iter k (final stepGradientDescent) w)))
        = map Entry.iteration (history (gdState w))
          ++ seq (length (history (gdState w))) k)
  /\ (forall s : World,
        isRunning (gdState w) = false ->
        In s (suspensions runGradientDescent w) ->
        isRunning (gdState s) = true
        /\ length (history (gdState (final stepGradientDescent s)))
           = S (length (history (gdState s)))).
Proof.
  split; [|split; [|split]].
  - eexists. split; [apply stepGradientDescent_history|].
    split; reflexivity.
  - unfold final. rewrite stepGradientDescent_run. reflexivity.
  - apply stepGradientDescent_repeated.
  - intros s Hidle Hs. split.
    + now apply (runGradientDescent_suspended_running w s).
    + rewrite stepGradientDescent_history, length_app. cbn [length]. lia.
Qed.

Lemma stepGradientDescent_appends_entry_witness :
  map Entry.iteration
    (history
       (gdState (Nat.iter 3 (final stepGradientDescent) (world0 0.2 15))))
  = [0%nat; 1%nat; 2%nat].
Proof.
  destruct (stepGradientDescent_appends_entry (world0 0.2 15))
    as (_ & _ & Hk & _).
  exact (Hk 3%nat).
Defined.

(** ** Convergence on the main dataset *)

(** One update moves the parameter towards the mean by the factor
    [1 - 2 * learningRate]. *)
Lemma gd_update_contraction (data : Dataset) (lr b : Q) :
  points data <> [] ->
  gd_update data lr b - mean_y data == (1 - 2 * lr) * (b - mean_y data).
Proof.
  intros Hne. unfold gd_update.
  rewrite (computeMSEDerivative_linear data b Hne). ring.
Qed.

Lemma gd_iterate_contraction (data : Dataset) (lr b0 : Q) (k : nat) :
  points data <> [] -> lr == 0.2 ->
  exists c : Q,
    0 <= c /\ c <= 1 /\ ((1 <= k)%nat -> c <= 0.6)
    /\ gd_iterate data lr b0 k - mean_y data == c * (b0 - mean_y data).
Proof.
  intros Hne Hlr. induction k as [|k IH].
  - exists 1. split; [lra | split; [lra | split; [lia |]]].
    change (gd_iterate data lr b0 0) with b0. ring.
  - destruct IH as (c & Hc0 & Hc1 & _ & Hc).
    exists (0.6 * c).
    change (gd_iterate data lr b0 (S k))
      with (gd_update data lr (gd_iterate data lr b0 k)).
    rewrite (gd_update_contraction data lr _ Hne), Hc, Hlr.
    split; [lra | split; [lra | split; [intros _; lra | ring]]].
Qed.

(** C9.  On the main dataset, a run of 15 iterations with learning rate
    0.2 from [b = -7] ends strictly closer to 4.5 than it started and
    leaves 15 history entries. *)
Theorem run_main_dataset_converges (w : World) :
  points (mainData w) = points mainData0 ->
  learning_rate w == 0.2 ->
  iterations w = 15%Z ->
  currentB (gdState w) == -7 ->
  isRunning (gdState w) = false ->
  Qabs (currentB (gdState (final runGradientDescent w)) - 4.5)
    < Qabs (-7 - 4.5)
  /\ length (history (gdState (final runGradientDescent w))) = 15%nat.
Proof.
  intros Hpts Hlr Hn Hb Hidle.
  destruct (runGradientDescent_final w Hidle) as (_ & Hfin & Hh & _).
  rewrite Hfin, Hh, Hn. split.
  - assert (Hne : points (mainData w) <> []) by (rewrite Hpts; discriminate).
    assert (Hmean : mean_y (mainData w) == 4.5).
    { unfold mean_y. rewrite Hpts. vm_compute. reflexivity. }
    destruct (gd_iterate_contraction (mainData w) (learning_rate w)
                (currentB (gdState w)) (Z.to_nat 15) Hne Hlr)
      as (c & Hc0 & _ & Hc & Heq).
    assert (Hc' : c <= 0.6) by (apply Hc; vm_compute; lia).
    set (bN := gd_iterate (mainData w) (learning_rate w)
                 (currentB (gdState w)) (Z.to_nat 15)) in *.
    assert (Hx : currentB (gdState w) - mean_y (mainData w) == -7 - 4.5)
      by lra.
    rewrite Hx in Heq.
    assert (HbN : bN - 4.5 == c * (-7 - 4.5)) by lra.
    rewrite HbN, Qabs_Qmult, (Qabs_pos c Hc0).
    assert (Habs : Qabs (-7 - 4.5) == 11.5) by (vm_compute; reflexivity).
    rewrite Habs. lra.
  - now rewrite length_map, length_seq.
Qed.

Lemma run_main_dataset_converges_witness :
  Qabs (currentB (gdState (final runGradientDescent (world_at (-7) 0.2 15))) - 4.5)
    < Qabs (-7 - 4.5)
  /\ length (history (gdState (final runGradientDescent (world_at (-7) 0.2 15))))
     = 15%nat.
Proof.
  apply (run_main_dataset_converges (world_at (-7) 0.2 15));
    reflexivity.
Defined.

(** ** Bounds on the mean *)

Lemma Qsum_bounds (l : list Point.t) (lo hi : Q) :
  Forall (fun p => lo <= Point.y p /\ Point.y p <= hi) l ->
  Qlen l * lo <= Qsum (map Point.y l) /\ Qsum (map Point.y l) <= Qlen l * hi.
Proof.
  induction 1 as [|p l [Hlo Hhi] _ IH].
  - cbn [map Qsum]. change (Qlen (@nil Point.t)) with 0. split; lra.
  - cbn [map Qsum]. rewrite Qlen_cons. destruct IH. split; lra.
Qed.

Lemma mean_y_bounds (data : Dataset) (lo hi : Q) :
  points data <> [] ->
  Forall (fun p => lo <= Point.y p /\ Point.y p <= hi) (points data) ->
  lo <= mean_y data /\ mean_y data <= hi.
Proof.
  intros Hne Hall. apply Qlen_pos in Hne.
  destruct (Qsum_bounds _ lo hi Hall) as [H1 H2]. unfold mean_y. split.
  - apply Qle_shift_div_l; [exact Hne | lra].
  - apply Qle_shift_div_r; [exact Hne | lra].
Qed.

(** ** Step Once at the optimum *)

Lemma stepGradientDescent_final (w : World) :
  mainData (final stepGradientDescent w) = mainData w
  /\ learning_rate (final stepGradientDescent w) = learning_rate w
  /\ currentB (gdState (final stepGradientDescent w))
     = gd_update (mainData w) (learning_rate w) (currentB (gdState w)).
Proof.
  unfold final. rewrite stepGradientDescent_run. repeat split.
Qed.

Lemma computeMSEDerivative_at_optimum (data : Dataset) (b : Q) :
  points data <> [] -> b == computeOptimalB data ->
  computeMSEDerivative data b == 0.
Proof.
  intros Hne Hb. rewrite (computeMSEDerivative_linear data b Hne).
  pose proof (computeOptimalB_mean data). lra.
Qed.

Lemma interpolate_constant (steps : nat) (oldB newB : Q) (i : nat) :
  newB == oldB -> interpolate steps oldB newB i == oldB.
Proof.
  intros H. rewrite interpolate_eased.
  assert (Hz : newB - oldB == 0) by lra. rewrite Hz. ring.
Qed.

Lemma tick_world_currentB (steps : nat) (sd oldB newB : Q) (w : World)
    (i k : nat) :
  currentB (gdState (tick_world steps sd oldB newB w i k))
  = interpolate steps oldB newB (k + i).
Proof. reflexivity. Qed.

Lemma stepGradientDescent_suspensions (w : World) :
  suspensions stepGradientDescent w
  = iteration_suspensions (learning_rate w) (length (history (gdState w))) w.
Proof. unfold suspensions. rewrite stepGradientDescent_run. reflexivity. Qed.

Lemma In_iteration_suspensions (lr : Q) (i : nat) (w s : World) :
  In s (iteration_suspensions lr i w) ->
  exists k : nat,
    (k < 20)%nat
    /\ s = tick_world 20 (400 / Qnat 20) (currentB (gdState w))
             (gd_update (mainData w) lr (currentB (gdState w)))
             (recorded_world i w) 1 k.
Proof.
  unfold iteration_suspensions. cbv zeta. rewrite in_map_iff.
  intros (k & Hk & Hin). exists k. rewrite in_seq in Hin.
  split; [lia | now symmetry].
Qed.

Lemma iteration_suspensions_length (lr : Q) (i : nat) (w : World) :
  length (iteration_suspensions lr i w) = 20%nat.
Proof.
  unfold iteration_suspensions. cbv zeta. now rewrite length_map, length_seq.
Qed.

(** X6.  Step Once has no convergence check: at the optimum the recorded
    gradient is zero and [currentB] keeps its value through all twenty
    suspensions and at the end, but the entry is still pushed and the
    animation still runs. *)
Theorem stepGradientDescent_at_optimum (w : World) :
  points (mainData w) <> [] ->
  currentB (gdState w) == computeOptimalB (mainData w) ->
  (exists e : Entry.t,
     history (gdState (final stepGradientDescent w))
     = history (gdState w) ++ [e]
     /\ Entry.gradient e == 0)
  /\ length (suspensions stepGradientDescent w) = 20%nat
  /\ (forall s : World, In s (suspensions stepGradientDescent w) ->
        currentB (gdState s) == currentB (gdState w))
  /\ currentB (gdState (final stepGradientDescent w)) == currentB (gdState w).
Proof.
  intros Hne Hb.
  pose proof (computeMSEDerivative_at_optimum (mainData w) _ Hne Hb) as Hg.
  assert (Hu : gd_update (mainData w) (learning_rate w) (currentB (gdState w))
               == currentB (gdState w)).
  { unfold gd_update. rewrite Hg. ring. }
  split; [|split; [|split]].
  - eexists. split; [apply stepGradientDescent_history | exact Hg].
  - rewrite stepGradientDescent_suspensions.
    apply iteration_suspensions_length.
  - intros s Hs. rewrite stepGradientDescent_suspensions in Hs.
    apply In_iteration_suspensions in Hs. destruct Hs as (k & _ & Hk).
    rewrite Hk, tick_world_currentB. apply interpolate_constant. exact Hu.
  - destruct (stepGradientDescent_final w) as (_ & _ & Hfin).
    rewrite Hfin. exact Hu.
Qed.

Lemma stepGradientDescent_at_optimum_witness :
  length (suspensions stepGradientDescent (world_at 4.5 0.2 15)) = 20%nat
  /\ currentB (gdState (final stepGradientDescent (world_at 4.5 0.2 15)))
     == 4.5.
Proof.
  assert (Hne : points (mainData (world_at 4.5 0.2 15)) <> [])
    by (simpl; discriminate).
  assert (Hb : currentB (gdState (world_at 4.5 0.2 15))
               == computeOptimalB (mainData (world_at 4.5 0.2 15)))
    by (vm_compute; reflexivity).
  destruct (stepGradientDescent_at_optimum (world_at 4.5 0.2 15) Hne Hb)
    as (_ & Hlen & _ & Hfin).
  split; [exact Hlen | exact Hfin].
Defined.

(** ** Run and Step Once against each other *)

Lemma tick_world_isRunning (steps : nat) (sd oldB newB : Q) (w : World)
    (i k : nat) :
  isRunning (gdState (tick_world steps sd oldB newB w i k))
  = isRunning (gdState w)
  /\ iterations (tick_world steps sd oldB newB w i k) = iterations w.
Proof. split; reflexivity. Qed.

(** X9.  While a run is suspended, a second call of Run changes nothing
    and is not suspended: the guard refuses it. *)
Theorem runGradientDescent_reentrant (w s : World) :
  isRunning (gdState w) = false ->
  In s (suspensions runGradientDescent w) ->
  runGradientDescent s = ([], (tt, s)).
Proof.
  intros Hidle Hs. apply runGradientDescent_guarded.
  exact (runGradientDescent_suspended_running w s Hidle Hs).
Qed.

Lemma runGradientDescent_reentrant_witness :
  runGradientDescent busy_world = ([], (tt, busy_world)).
Proof.
  assert (Hidle : isRunning (gdState (world0 0.2 2)) = false) by reflexivity.
  apply (runGradientDescent_reentrant (world0 0.2 2) busy_world Hidle).
  assert (Hlen : length (suspensions runGradientDescent (world0 0.2 2)) = 40%nat)
    by (vm_compute; reflexivity).
  unfold busy_world.
  destruct (suspensions runGradientDescent (world0 0.2 2)) as [|s0 l].
  - discriminate Hlen.
  - left. reflexivity.
Defined.

(** X10.  Step Once does not set [isRunning]: a Run called while a Step
    Once animation is suspended is not refused, and the history it leaves
    holds its own entries only, one per iteration. *)
Theorem runGradientDescent_during_step (w : World) (k : nat) :
  isRunning (gdState w) = false ->
  (k < 20)%nat ->
  exists s : World,
    nth_error (suspensions stepGradientDescent w) k = Some s
    /\ isRunning (gdState s) = false
    /\ length (history (gdState s)) = S (length (history (gdState w)))
    /\ length (history (gdState (final runGradientDescent s)))
       = Z.to_nat (iterations w).
Proof.
  intros Hidle Hk. eexists.
  split; [now apply stepGradientDescent_suspension_nth|].
  match goal with
  | |- isRunning (gdState ?t) = false /\ _ => set (s := t)
  end.
  assert (Hrun : isRunning (gdState s) = false).
  { unfold s. rewrite (proj1 (tick_world_isRunning _ _ _ _ _ _ _)).
    exact Hidle. }
  assert (Hit : iterations s = iterations w).
  { unfold s. rewrite (proj2 (tick_world_isRunning _ _ _ _ _ _ _)).
    reflexivity. }
  split; [exact Hrun | split].
  - unfold s. cbn [tick_world gdState with_currentB history recorded_world
                   with_history].
    rewrite length_app. cbn [length]. lia.
  - destruct (runGradientDescent_final s Hrun) as (_ & _ & Hh & _).
    rewrite Hh, length_map, length_seq, Hit. reflexivity.
Qed.

Lemma runGradientDescent_during_step_witness :
  exists s : World,
    nth_error (suspensions stepGradientDescent (world0 0.2 15)) 7 = Some s
    /\ isRunning (gdState s) = false
    /\ length (history (gdState s)) = 1%nat
    /\ length (history (gdState (final runGradientDescent s))) = 15%nat.
Proof.
  apply (runGradientDescent_during_step (world0 0.2 15) 7); [reflexivity | lia].
Defined.

(** X11.  With an iteration count of zero or less, Run only clears: no
    suspension, an empty history and an emptied table, [currentB] as it
    was, and [isRunning] false again. *)
Theorem runGradientDescent_no_iterations (w : World) :
  isRunning (gdState w) = false ->
  (iterations w <= 0)%Z ->
  suspensions runGradientDescent w = []
  /\ history (gdState (final runGradientDescent w)) = []
  /\ currentB (gdState (final runGradientDescent w)) = currentB (gdState w)
  /\ isRunning (gdState (final runGradientDescent w)) = false
  /\ dom (final runGradientDescent w) = dom w ++ [IterationsCleared].
Proof.
  intros Hidle Hn. unfold suspensions, final.
  rewrite (runGradientDescent_run w Hidle).
  assert (Hz : Z.to_nat (iterations w) = 0%nat) by lia.
  rewrite Hz. repeat split.
Qed.

Lemma runGradientDescent_no_iterations_witness :
  suspensions runGradientDescent (world0 0.2 0) = []
  /\ history (gdState (final runGradientDescent (world0 0.2 0))) = []
  /\ currentB (gdState (final runGradientDescent (world0 0.2 0))) = 3
  /\ isRunning (gdState (final runGradientDescent (world0 0.2 0))) = false
  /\ dom (final runGradientDescent (world0 0.2 0)) = [IterationsCleared].
Proof.
  apply (runGradientDescent_no_iterations (world0 0.2 0)).
  - reflexivity.
  - vm_compute. discriminate.
Defined.

(** ** How long a run takes *)

Lemma iteration_end_clock (lr : Q) (i : nat) (w : World) :
  clock (iteration_end lr i w) == clock w + 400.
Proof.
  unfold iteration_end, snap_world, recorded_world. cbv zeta.
  cbn [clock]. rewrite clock_after_value.
  assert (H : Qnat 20 * (400 / Qnat 20) == 400) by reflexivity.
  rewrite H. reflexivity.
Qed.

Lemma run_loop_final_step (lr : Q) (todo i : nat) (w : World) :
  final (run_loop lr (S todo) i) w
  = final (run_loop lr todo (S i)) (iteration_end lr i w).
Proof.
  unfold final. cbn [run_loop]. rewrite bind_run, run_iteration_run.
  reflexivity.
Qed.

Lemma run_loop_clock (lr : Q) (todo i : nat) (w : World) :
  clock (final (run_loop lr todo i) w) == clock w + 400 * Qnat todo.
Proof.
  revert i w. induction todo as [|todo IH]; intros i w.
  - change (final (run_loop lr 0 i) w) with w.
    change (Qnat 0) with 0. ring.
  - rewrite run_loop_final_step, IH, iteration_end_clock.
    unfold Qnat. rewrite Nat2Z.inj_succ, <- Z.add_1_r, inject_Z_plus. ring.
Qed.

(** X12.  A run of [n] iterations that is not refused is suspended
    [20 * n] times and ends [400 * n] milliseconds after it started. *)
Theorem runGradientDescent_duration (w : World) (n : nat) :
  isRunning (gdState w) = false ->
  iterations w = Z.of_nat n ->
  length (suspensions runGradientDescent w) = (20 * n)%nat
  /\ clock (final runGradientDescent w) == clock w + 400 * Qnat n.
Proof.
  intros Hidle Hn. unfold suspensions, final.
  rewrite (runGradientDescent_run w Hidle). cbn [fst snd].
  rewrite Hn, Nat2Z.id. split.
  - apply run_loop_suspensions.
  - cbn [with_gdState clock]. rewrite run_loop_clock. reflexivity.
Qed.

Lemma runGradientDescent_duration_witness :
  length (suspensions runGradientDescent (world0 0.2 15)) = 300%nat
  /\ clock (final runGradientDescent (world0 0.2 15)) == 0 + 400 * Qnat 15.
Proof.
  apply (runGradientDescent_duration (world0 0.2 15) 15); reflexivity.
Defined.

(** ** The iteration table and the history *)

Lemma iteration_table_app (d l : list DomEvent) :
  iteration_table (d ++ l) = fold_left table_event l (iteration_table d).
Proof. unfold iteration_table. apply fold_left_app. Qed.

Lemma table_tick_writes (steps : nat) (oldB newB : Q) (i k : nat)
    (rows : list Entry.t) :
  fold_left table_event (tick_writes steps oldB newB i k) rows = rows.
Proof.
  revert i. induction k as [|k IH]; intros i; [reflexivity|].
  rewrite tick_writes_cons, fold_left_app. cbn [fold_left table_event].
  apply IH.
Qed.

Lemma snap_world_table (duration : Q) (steps : nat) (oldB newB : Q) (w : World) :
  iteration_table (dom (snap_world duration steps oldB newB w))
  = iteration_table (dom w).
Proof.
  cbn [snap_world dom]. rewrite iteration_table_app, fold_left_app.
  rewrite table_tick_writes. reflexivity.
Qed.

Lemma recorded_world_table (i : nat) (w : World) :
  iteration_table (dom (recorded_world i w))
  = iteration_table (dom w)
    ++ [entry_at (mainData w) i (currentB (gdState w))].
Proof.
  unfold recorded_world. cbv zeta. cbn [dom].
  rewrite iteration_table_app. reflexivity.
Qed.

Lemma iteration_end_table (lr : Q) (i : nat) (w : World) :
  iteration_table (dom w) = history (gdState w) ->
  iteration_table (dom (iteration_end lr i w))
  = history (gdState (iteration_end lr i w)).
Proof.
  intros H. unfold iteration_end. cbv zeta.
  rewrite snap_world_table, recorded_world_table, H. reflexivity.
Qed.

Lemma run_loop_table (lr : Q) (todo i : nat) (w : World) :
  iteration_table (dom w) = history (gdState w) ->
  iteration_table (dom (final (run_loop lr todo i) w))
  = history (gdState (final (run_loop lr todo i) w)).
Proof.
  revert i w. induction todo as [|todo IH]; intros i w H.
  - exact H.
  - rewrite run_loop_final_step. apply IH. now apply iteration_end_table.
Qed.

Lemma run_start_table (w : World) :
  iteration_table (dom (run_start w)) = history (gdState (run_start w)).
Proof.
  unfold run_start. cbn [dom gdState history].
  rewrite iteration_table_app. reflexivity.
Qed.

(** X13.  The iteration table shows the history: if its rows are the
    history entries before Step Once, Run, the randomize button or a move
    of the slider, they are the history entries afterwards; after a Run
    that is not refused and after the randomize button they are in any
    case. *)
Theorem iteration_table_is_history (w : World) :
  (iteration_table (dom w) = history (gdState w) ->
     iteration_table (dom (final stepGradientDescent w))
     = history (gdState (final stepGradientDescent w))
     /\ iteration_table (dom (final runGradientDescent w))
        = history (gdState (final runGradientDescent w))
     /\ forall value : Q,
          iteration_table (dom (final (slider_input value) w))
          = history (gdState (final (slider_input value) w)))
  /\ (isRunning (gdState w) = false ->
        iteration_table (dom (final runGradientDescent w))
        = history (gdState (final runGradientDescent w)))
  /\ (forall random : Q,
        iteration_table (dom (final (randomize_click random) w)) = []
        /\ history (gdState (final (randomize_click random) w)) = []).
Proof.
  assert (Hidle : isRunning (gdState w) = false ->
                  iteration_table (dom (final runGradientDescent w))
                  = history (gdState (final runGradientDescent w))).
  { intros H. unfold final. rewrite (runGradientDescent_run w H).
    cbn [fst snd with_gdState with_isRunning dom gdState history].
    apply run_loop_table, run_start_table. }
  split; [|split].
  - intros H. split; [|split].
    + unfold final. rewrite stepGradientDescent_run. cbn [fst snd].
      now apply iteration_end_table.
    + destruct (isRunning (gdState w)) eqn:Hr.
      * unfold final. rewrite (runGradientDescent_guarded w Hr). exact H.
      * now apply Hidle.
    + intros value. unfold final, slider_input, updateMainDisplay, set_currentB,
        dom_write.
      rewrite !bind_modify. unfold modify. cbn [fst snd].
      cbn [with_dom with_gdState dom gdState with_currentB history].
      rewrite iteration_table_app. exact H.
  - exact Hidle.
  - intros random.
    unfold final, randomize_click, clearIterationsTable, updateMainDisplay,
      set_history, set_currentB, dom_write.
    cbv zeta. rewrite !bind_modify. unfold modify. cbn [fst snd].
    cbn [with_dom with_gdState dom gdState with_currentB with_history history].
    split; [|reflexivity].
    rewrite iteration_table_app. reflexivity.
Qed.

Lemma iteration_table_is_history_witness :
  iteration_table (dom (final stepGradientDescent (world0 0.2 15)))
  = history (gdState (final stepGradientDescent (world0 0.2 15))).
Proof.
  destruct (iteration_table_is_history (world0 0.2 15)) as (Hkeep & _ & _).
  assert (H0 : iteration_table (dom (world0 0.2 15))
               = history (gdState (world0 0.2 15))) by reflexivity.
  destruct (Hkeep H0) as (Hstep & _). exact Hstep.
Defined.

(** ** The randomize button *)

(** X14.  The randomize button puts [currentB] in [-10, 10) (10 itself is
    never drawn), empties the history without suspending and leaves
    [isRunning] and the dataset as they were; the next Step Once numbers
    its entry 0. *)
Theorem randomize_click_range (random : Q) (w : World) :
  0 <= random -> random < 1 ->
  let w' := final (randomize_click random) w in
  -10 <= currentB (gdState w') /\ currentB (gdState w') < 10
  /\ history (gdState w') = []
  /\ suspensions (randomize_click random) w = []
  /\ isRunning (gdState w') = isRunning (gdState w)
  /\ mainData w' = mainData w
  /\ map Entry.iteration (history (gdState (final stepGradientDescent w')))
     = [0%nat].
Proof.
  intros H0 H1. cbv zeta.
  assert (Hrun : randomize_click random w
                 = ([], (tt,
                         {| mainData := mainData w;
                            gdState := {| currentB := random * 20 - 10;
                                          history := [];
                                          isRunning := isRunning (gdState w) |};
                            learning_rate := learning_rate w;
                            iterations := iterations w;
                            clock := clock w;
                            dom := dom w ++ [SliderValue (random * 20 - 10);
                                             MainDisplay; IterationsCleared] |}))).
  { unfold randomize_click, clearIterationsTable, updateMainDisplay,
      set_history, set_currentB, dom_write.
    cbv zeta. rewrite !bind_modify. unfold modify.
    cbn [with_dom with_gdState dom gdState with_currentB with_history
         mainData learning_rate iterations clock currentB history isRunning].
    rewrite <- !app_assoc. reflexivity. }
  assert (Hfin : final (randomize_click random) w
                 = snd (snd (randomize_click random w))) by reflexivity.
  assert (Hsus : suspensions (randomize_click random) w
                 = fst (randomize_click random w)) by reflexivity.
  rewrite Hsus, Hfin, Hrun. cbn [fst snd].
  rewrite stepGradientDescent_history.
  cbn [gdState currentB history isRunning mainData app map length entry_at
       Entry.iteration].
  repeat split; lra.
Qed.

Lemma randomize_click_range_witness :
  -10 <= currentB (gdState (final (randomize_click 0.25) (world0 0.2 15)))
  /\ currentB (gdState (final (randomize_click 0.25) (world0 0.2 15))) < 10.
Proof.
  assert (H0 : 0 <= 0.25) by (vm_compute; discriminate).
  assert (H1 : 0.25 < 1) by reflexivity.
  destruct (randomize_click_range 0.25 (world0 0.2 15) H0 H1)
    as (Hlo & Hhi & _).
  split; [exact Hlo | exact Hhi].
Defined.

(** ** Chart helpers *)

Lemma bRange_loop_run (min step : Q) (todo : nat) (i : Z) (range : list Q) :
  bRange_loop min step todo i range
  = range
    ++ map (fun k => min + inject_Z (i + Z.of_nat k) * step) (seq 0 todo).
Proof.
  revert i range. induction todo as [|todo IH]; intros i range.
  - cbn. now rewrite app_nil_r.
  - cbn [bRange_loop]. rewrite IH. unfold push. rewrite <- app_assoc.
    f_equal. cbn [seq map app]. rewrite Z.add_0_r. f_equal.
    rewrite <- seq_shift, map_map. apply map_ext. intros k.
    do 3 f_equal. lia.
Qed.

Lemma generateBRange_nth (min max : Q) (steps : Z) (k : nat) :
  (k < Z.to_nat (steps + 1))%nat ->
  nth_error (generateBRange min max steps) k
  = Some (min + Qnat k * ((max - min) / inject_Z steps)).
Proof.
  intros Hk. unfold generateBRange. cbv zeta.
  rewrite bRange_loop_run. cbn [app].
  now rewrite nth_error_map_seq.
Qed.

(** X15.  For [steps >= 1], [generateBRange] returns [steps + 1] values,
    value [k] being [min + k * step] with [step = (max - min) / steps].
    For the call the page makes, [generateBRange (-10, 10, 50)], the first
    value is -10, the last is 10 and the values increase strictly. *)
Theorem generateBRange_grid (min max : Q) (steps : Z) :
  (1 <= steps)%Z ->
  length (generateBRange min max steps) = Z.to_nat (steps + 1)
  /\ (forall k : nat, (k <= Z.to_nat steps)%nat ->
        nth_error (generateBRange min max steps) k
        = Some (min + Qnat k * ((max - min) / inject_Z steps)))
  /\ (exists first last : Q,
        nth_error (generateBRange (-10) 10 50) 0 = Some first
        /\ first == -10
        /\ nth_error (generateBRange (-10) 10 50) 50 = Some last
        /\ last == 10)
  /\ (forall (j k : nat) (vj vk : Q),
        (j < k)%nat ->
        nth_error (generateBRange (-10) 10 50) j = Some vj ->
        nth_error (generateBRange (-10) 10 50) k = Some vk ->
        vj < vk).
Proof.
  intros Hs.
  assert (Hlen : forall lo hi n,
             length (generateBRange lo hi n) = Z.to_nat (n + 1)).
  { intros lo hi n. unfold generateBRange. cbv zeta.
    rewrite bRange_loop_run. cbn [app].
    now rewrite length_map, length_seq. }
  split; [apply Hlen | split; [|split]].
  - intros k Hk. apply generateBRange_nth. lia.
  - eexists. eexists.
    split; [apply generateBRange_nth; lia|].
    split; [vm_compute; reflexivity|].
    split; [apply generateBRange_nth; lia|].
    vm_compute. reflexivity.
  - intros j k vj vk Hjk Hj Hk.
    assert (Hkl : (k < Z.to_nat (50 + 1))%nat).
    { rewrite <- (Hlen (-10) 10 50%Z). apply nth_error_Some. congruence. }
    rewrite generateBRange_nth in Hj by lia.
    rewrite generateBRange_nth in Hk by lia.
    injection Hj as <-. injection Hk as <-.
    pose proof (Qnat_lt j k Hjk) as Hq.
    assert (Hstep : 0 < (10 - -10) / inject_Z 50) by reflexivity.
    nra.
Qed.

Lemma generateBRange_grid_witness :
  length (generateBRange (-10) 10 50) = 51%nat
  /\ nth_error (generateBRange (-10) 10 50) 1
     = Some (-10 + Qnat 1 * ((10 - -10) / inject_Z 50)).
Proof.
  assert (Hs : (1 <= 50)%Z) by lia.
  destruct (generateBRange_grid (-10) 10 50 Hs) as (Hlen & Hnth & _).
  split; [exact Hlen | apply Hnth; lia].
Defined.

Lemma Math_min_from (l : list Q) (a : Q) :
  exists m : Q,
    fold_left
      (fun acc v =>
         match acc with
         | Finite m => Finite (if Qle_bool v m then v else m)
         | Infinity => Finite v
         | NegInfinity => NegInfinity
         end) l (Finite a)
    = Finite m
    /\ m <= a /\ Forall (fun v => m <= v) l /\ (m = a \/ In m l).
Proof.
  revert a. induction l as [|v l IH]; intros a.
  - exists a. cbn. repeat split; [lra | constructor | now left].
  - cbn [fold_left].
    destruct (IH (if Qle_bool v a then v else a)) as (m & Hm & Hle & Hall & Hin).
    exists m. split; [exact Hm|].
    destruct (Qle_bool v a) eqn:Hva.
    + apply Qle_bool_iff in Hva. split; [lra | split].
      * constructor; [exact Hle | exact Hall].
      * right. destruct Hin as [-> | Hin]; [now left | now right].
    + assert (Hav : a < v).
      { apply Qnot_le_lt. intros Hle'. apply Qle_bool_iff in Hle'. congruence. }
      split; [exact Hle | split].
      * constructor; [lra | exact Hall].
      * destruct Hin as [-> | Hin]; [now left | right; now right].
Qed.

Lemma Math_max_from (l : list Q) (a : Q) :
  exists m : Q,
    fold_left
      (fun acc v =>
         match acc with
         | Finite m => Finite (if Qle_bool m v then v else m)
         | NegInfinity => Finite v
         | Infinity => Infinity
         end) l (Finite a)
    = Finite m
    /\ a <= m /\ Forall (fun v => v <= m) l /\ (m = a \/ In m l).
Proof.
  revert a. induction l as [|v l IH]; intros a.
  - exists a. cbn. repeat split; [lra | constructor | now left].
  - cbn [fold_left].
    destruct (IH (if Qle_bool a v then v else a)) as (m & Hm & Hle & Hall & Hin).
    exists m. split; [exact Hm|].
    destruct (Qle_bool a v) eqn:Hva.
    + apply Qle_bool_iff in Hva. split; [lra | split].
      * constructor; [exact Hle | exact Hall].
      * right. destruct Hin as [-> | Hin]; [now left | now right].
    + assert (Hav : v < a).
      { apply Qnot_le_lt. intros Hle'. apply Qle_bool_iff in Hle'. congruence. }
      split; [exact Hle | split].
      * constructor; [lra | exact Hall].
      * destruct Hin as [-> | Hin]; [now left | right; now right].
Qed.

(** [Math.min] and [Math.max] of at least one number. *)
Lemma Math_min_nonempty (l : list Q) :
  l <> [] ->
  exists m : Q,
    Math_min l = Finite m /\ In m l /\ Forall (fun v => m <= v) l.
Proof.
  destruct l as [|a l]; [congruence|]. intros _.
  unfold Math_min. cbn [fold_left].
  destruct (Math_min_from l a) as (m & Hm & Hle & Hall & Hin).
  exists m. split; [exact Hm | split].
  - destruct Hin as [-> | Hin]; [now left | now right].
  - constructor; assumption.
Qed.

Lemma Math_max_nonempty (l : list Q) :
  l <> [] ->
  exists m : Q,
    Math_max l = Finite m /\ In m l /\ Forall (fun v => v <= m) l.
Proof.
  destruct l as [|a l]; [congruence|]. intros _.
  unfold Math_max. cbn [fold_left].
  destruct (Math_max_from l a) as (m & Hm & Hle & Hall & Hin).
  exists m. split; [exact Hm | split].
  - destruct Hin as [-> | Hin]; [now left | now right].
  - constructor; assumption.
Qed.

(** X16.  For a dataset with at least one point, [generateLineData] is a
    horizontal segment at height [b] whose ends lie exactly 1 left of the
    leftmost point and 1 right of the rightmost: every point is at least
    1 inside.  For a dataset without points the ends are [Infinity] and
    [-Infinity]. *)
Theorem generateLineData_span (data : Dataset) (b : Q) :
  (points data <> [] ->
   exists (pl pr : Point.t),
     In pl (points data) /\ In pr (points data)
     /\ generateLineData data b
        = [ LinePoint.make (Finite (Point.x pl + - (1))) b;
            LinePoint.make (Finite (Point.x pr + 1)) b ]
     /\ Forall (fun p => Point.x pl <= Point.x p /\ Point.x p <= Point.x pr)
          (points data))
  /\ (points data = [] ->
      generateLineData data b
      = [ LinePoint.make Infinity b; LinePoint.make NegInfinity b ]).
Proof.
  split.
  - intros Hne.
    assert (Hxs : map (fun p => Point.x p) (points data) <> []).
    { destruct (points data); [congruence | discriminate]. }
    destruct (Math_min_nonempty _ Hxs) as (lo & Hlo & Hlo_in & Hlo_all).
    destruct (Math_max_nonempty _ Hxs) as (hi & Hhi & Hhi_in & Hhi_all).
    apply in_map_iff in Hlo_in. destruct Hlo_in as (pl & Hpl & Hpl_in).
    apply in_map_iff in Hhi_in. destruct Hhi_in as (pr & Hpr & Hpr_in).
    exists pl, pr. split; [exact Hpl_in | split; [exact Hpr_in | split]].
    + unfold generateLineData. cbv zeta. rewrite Hlo, Hhi, Hpl, Hpr.
      reflexivity.
    + rewrite Forall_map in Hlo_all, Hhi_all. rewrite Forall_forall in *.
      intros p Hp. rewrite Hpl, Hpr. split; [now apply Hlo_all | now apply Hhi_all].
  - intros Hnil. unfold generateLineData. rewrite Hnil. reflexivity.
Qed.

Lemma generateLineData_span_witness :
  exists (pl pr : Point.t),
    In pl (points mainData1) /\ In pr (points mainData1)
    /\ generateLineData mainData1 3
       = [ LinePoint.make (Finite (Point.x pl + - (1))) 3;
           LinePoint.make (Finite (Point.x pr + 1)) 3 ]
    /\ Forall (fun p => Point.x pl <= Point.x p /\ Point.x p <= Point.x pr)
         (points mainData1).
Proof.
  destruct (generateLineData_span mainData1 3) as (Hne & _).
  apply Hne. simpl. discriminate.
Defined.

Lemma residualBars_fold (b : Q) (l : list Point.t) (acc : list ChartPoint.t) :
  fold_left
    (fun residualBars point =>
       let residual := Point.y point - b in
       let residualBars :=
         push residualBars
           (ChartPoint.make (Some (Point.x point)) (Some (Point.y point))) in
       let residualBars :=
         push residualBars (ChartPoint.make (Some (Point.x point)) (Some b)) in
       push residualBars (ChartPoint.make None None))
    l acc
  = acc ++ flat_map (residual_bar b) l.
Proof.
  revert acc. induction l as [|p l IH]; intros acc.
  - cbn. now rewrite app_nil_r.
  - cbn [fold_left flat_map]. rewrite IH. unfold push, residual_bar.
    rewrite <- !app_assoc. reflexivity.
Qed.

(** X17.  [generateResidualBars] gives three chart points per data point,
    in the order of the points: the point itself, the point of the model
    line straight below or above it (same [x], [y = b]), and a break. *)
Theorem generateResidualBars_bars (data : Dataset) (b : Q) :
  generateResidualBars data b = flat_map (residual_bar b) (points data)
  /\ length (generateResidualBars data b) = (3 * length (points data))%nat
  /\ forall (k : nat) (p : Point.t),
       nth_error (points data) k = Some p ->
       nth_error (generateResidualBars data b) (3 * k)
       = Some (ChartPoint.make (Some (Point.x p)) (Some (Point.y p)))
       /\ nth_error (generateResidualBars data b) (3 * k + 1)
          = Some (ChartPoint.make (Some (Point.x p)) (Some b))
       /\ nth_error (generateResidualBars data b) (3 * k + 2)
          = Some (ChartPoint.make None None).
Proof.
  assert (Heq : generateResidualBars data b
                = flat_map (residual_bar b) (points data)).
  { unfold generateResidualBars. now rewrite residualBars_fold. }
  rewrite Heq. clear Heq. split; [reflexivity | split].
  - induction (points data) as [|p l IH]; [reflexivity|].
    cbn [flat_map]. rewrite length_app, IH.
    change (length (residual_bar b p)) with 3%nat.
    change (length (p :: l)) with (S (length l)). lia.
  - induction (points data) as [|q l IH]; intros k p Hk.
    + destruct k; discriminate.
    + destruct k as [|k].
      * injection Hk as ->. repeat split.
      * cbn [nth_error] in Hk. destruct (IH k p Hk) as (H0 & H1 & H2).
        replace (3 * S k)%nat with (S (S (S (3 * k)))) by lia.
        cbn [flat_map residual_bar app Nat.add nth_error].
        repeat split; assumption.
Qed.

Lemma generateResidualBars_bars_witness :
  nth_error (generateResidualBars mainData1 3) 0
  = Some (ChartPoint.make (Some 2) (Some 2.5))
  /\ nth_error (generateResidualBars mainData1 3) 1
     = Some (ChartPoint.make (Some 2) (Some 3))
  /\ nth_error (generateResidualBars mainData1 3) 2
     = Some (ChartPoint.make None None).
Proof.
  destruct (generateResidualBars_bars mainData1 3) as (_ & _ & Hnth).
  exact (Hnth 0%nat (Point.make 2 2.5) eq_refl).
Defined.

(** ** The residual table *)

Lemma residualTable_fold (b : Q) (l : list Point.t) (total : Q)
    (tbody : list ResidualRow) :
  fold_left
    (fun '(totalSquaredError, tbody) point =>
       let residual := Point.y point - b in
       let squaredError := residual * residual in
       let totalSquaredError := totalSquaredError + squaredError in
       let residualClass :=
         if Qlt_le_dec 0 residual then "residual-positive"%string
         else "residual-negative"%string in
       (totalSquaredError,
        push tbody
          (PointRow (Point.x point) (Point.y point) b residualClass
             residual squaredError)))
    l (total, tbody)
  = (fold_left Qplus
       (map (fun r => r * r) (map (fun point => Point.y point - b) l)) total,
     tbody ++ map (residual_row b) l).
Proof.
  revert total tbody. induction l as [|p l IH]; intros total tbody.
  - cbn. now rewrite app_nil_r.
  - cbn [fold_left map]. rewrite IH. unfold push. rewrite <- app_assoc.
    reflexivity.
Qed.

Lemma updateResidualTable_rows (data : Dataset) (b : Q) :
  updateResidualTable data b
  = map (residual_row b) (points data) ++ [SummaryRow (computeMSE data b)].
Proof.
  unfold updateResidualTable. cbv zeta. rewrite residualTable_fold.
  reflexivity.
Qed.

(** X18.  [updateResidualTable] rebuilds the table as one row per point,
    in order, and one summary row; the summary holds the very number
    [computeMSE] returns; a row is styled positive exactly when its
    residual [y - b] is above zero, so a point on the line is styled
    negative. *)
Theorem updateResidualTable_contents (data : Dataset) (b : Q) :
  length (updateResidualTable data b) = S (length (points data))
  /\ nth_error (updateResidualTable data b) (length (points data))
     = Some (SummaryRow (computeMSE data b))
  /\ forall (k : nat) (p : Point.t),
       nth_error (points data) k = Some p ->
       exists residualClass : string,
         nth_error (updateResidualTable data b) k
         = Some (PointRow (Point.x p) (Point.y p) b residualClass
                   (Point.y p - b) ((Point.y p - b) * (Point.y p - b)))
         /\ (residualClass = "residual-positive"%string <-> b < Point.y p)
         /\ (Point.y p <= b -> residualClass = "residual-negative"%string).
Proof.
  rewrite updateResidualTable_rows. split; [|split].
  - rewrite length_app, length_map. cbn [length]. lia.
  - rewrite nth_error_app2 by (rewrite length_map; lia).
    rewrite length_map, Nat.sub_diag. reflexivity.
  - intros k p Hk.
    assert (Hlt : (k < length (points data))%nat)
      by (apply nth_error_Some; congruence).
    rewrite nth_error_app1 by (rewrite length_map; exact Hlt).
    rewrite nth_error_map, Hk. cbn [option_map]. unfold residual_row.
    cbv zeta. eexists. split; [reflexivity|].
    destruct (Qlt_le_dec 0 (Point.y p - b)) as [Hpos | Hneg].
    + split; [split; [intros _; lra | reflexivity] | intros Hle; lra].
    + split; [split; [discriminate | intros Hlt'; lra] | reflexivity].
Qed.

Lemma updateResidualTable_contents_witness :
  exists residualClass : string,
    nth_error (updateResidualTable mainData1 2.5) 0
    = Some (PointRow 2 2.5 2.5 residualClass (2.5 - 2.5)
              ((2.5 - 2.5) * (2.5 - 2.5)))
    /\ (residualClass = "residual-positive"%string <-> 2.5 < 2.5)
    /\ (2.5 <= 2.5 -> residualClass = "residual-negative"%string).
Proof.
  destruct (updateResidualTable_contents mainData1 2.5) as (_ & _ & Hrow).
  exact (Hrow 0%nat (Point.make 2 2.5) eq_refl).
Defined.

(** ** Practice datasets *)

Lemma random_floor_bounds (r : Q) (c : Z) :
  0 <= r -> r < 1 -> (1 <= c)%Z ->
  (0 <= Qfloor (r * inject_Z c) <= c - 1)%Z.
Proof.
  intros H0 H1 Hc.
  assert (Hcq : 1 <= inject_Z c).
  { change 1 with (inject_Z 1). rewrite <- Zle_Qle. exact Hc. }
  assert (Hx0 : 0 <= r * inject_Z c) by nra.
  assert (Hx1 : r * inject_Z c < inject_Z c) by nra.
  split.
  - change 0%Z with (Qfloor 0). now apply Qfloor_resp_le.
  - pose proof (Qfloor_le (r * inject_Z c)) as Hfl.
    assert (Hlt : inject_Z (Qfloor (r * inject_Z c)) < inject_Z c) by lra.
    rewrite <- Zlt_Qlt in Hlt. lia.
Qed.

Section PracticeLoop.

Variables (difficulty : string) (random : nat -> Q) (numPoints : Z).

Hypothesis random_unit : forall j : nat, 0 <= random j /\ random j < 1.

(** One turn of the loop pushes one point; [practice_turn] names it. *)
Lemma practice_loop_step (todo : nat) (i : Z) (k : nat) (pts : list Point.t) :
  exists (p : Point.t) (k' : nat),
    practice_loop difficulty random numPoints (S todo) i k pts
    = practice_loop difficulty random numPoints todo (i + 1) k' (pts ++ [p])
    /\ Point.x p = inject_Z i + 1
    /\ (base_y p \/ (difficulty = "hard"%string /\ i = (numPoints - 1)%Z
                     /\ outlier_y p)).
Proof.
  cbn [practice_loop]. cbv zeta. unfold push.
  assert (Hb : base_y (Point.make (inject_Z i + 1) (1 + random k * 9))).
  { destruct (random_unit k). unfold base_y. cbn [Point.y]. split; lra. }
  destruct (String.eqb_spec difficulty "hard") as [Hhard | Hnot].
  - destruct (Qlt_le_dec (random (S k)) 0.2) as [Hlt | Hge].
    + destruct (Z.eqb_spec i (numPoints - 1)) as [Hlast | Hnl].
      * eexists. eexists. split; [reflexivity | split; [reflexivity|]].
        right. split; [exact Hhard | split; [exact Hlast|]].
        destruct (random_unit (S (S k))). unfold outlier_y. cbn [Point.y].
        split; lra.
      * eexists. eexists. split; [reflexivity | split; [reflexivity|]].
        now left.
    + eexists. eexists. split; [reflexivity | split; [reflexivity|]].
      now left.
  - eexists. eexists. split; [reflexivity | split; [reflexivity|]].
    now left.
Qed.

Lemma practice_loop_length (todo : nat) (i : Z) (k : nat) (pts : list Point.t) :
  length (fst (practice_loop difficulty random numPoints todo i k pts))
  = (length pts + todo)%nat.
Proof.
  revert i k pts. induction todo as [|todo IH]; intros i k pts.
  - cbn. lia.
  - destruct (practice_loop_step todo i k pts) as (p & k' & -> & _).
    rewrite IH, length_app. cbn [length]. lia.
Qed.

Lemma practice_loop_xs (todo : nat) (i : Z) (k : nat) (pts : list Point.t) :
  map Point.x (fst (practice_loop difficulty random numPoints todo i k pts))
  = map Point.x pts
    ++ map (fun j => inject_Z (i + Z.of_nat j) + 1) (seq 0 todo).
Proof.
  revert i k pts. induction todo as [|todo IH]; intros i k pts.
  - cbn. now rewrite app_nil_r.
  - destruct (practice_loop_step todo i k pts) as (p & k' & -> & Hx & _).
    rewrite IH, map_app, <- app_assoc. f_equal.
    cbn [map app seq]. rewrite Hx, Z.add_0_r. f_equal.
    rewrite <- seq_shift, map_map. apply map_ext. intros j.
    do 2 f_equal. lia.
Qed.

Lemma practice_loop_ys (todo : nat) (i : Z) (k : nat) (pts : list Point.t) :
  Forall (fun p => base_y p \/ (difficulty = "hard"%string /\ outlier_y p)) pts ->
  Forall (fun p => base_y p \/ (difficulty = "hard"%string /\ outlier_y p))
    (fst (practice_loop difficulty random numPoints todo i k pts)).
Proof.
  revert i k pts. induction todo as [|todo IH]; intros i k pts Hpts.
  - exact Hpts.
  - destruct (practice_loop_step todo i k pts) as (p & k' & -> & _ & Hy).
    apply IH. apply Forall_app. split; [exact Hpts|].
    constructor; [|constructor].
    destruct Hy as [Hb | (Hh & _ & Ho)]; [now left | right; now split].
Qed.

Lemma Forall_removelast {A : Type} (P : A -> Prop) (l : list A) :
  Forall P l -> Forall P (removelast l).
Proof.
  induction 1 as [|a l Ha Hl IH]; [constructor|].
  cbn [removelast]. destruct l; [constructor | now constructor].
Qed.

Lemma practice_loop_front (todo : nat) (i : Z) (k : nat) (pts : list Point.t) :
  (i + Z.of_nat todo = numPoints)%Z ->
  Forall base_y pts ->
  Forall base_y
    (removelast (fst (practice_loop difficulty random numPoints todo i k pts))).
Proof.
  revert i k pts. induction todo as [|todo IH]; intros i k pts Hn Hpts.
  - cbn [practice_loop fst]. now apply Forall_removelast.
  - destruct (practice_loop_step todo i k pts) as (p & k' & -> & _ & Hy).
    destruct Hy as [Hb | (_ & Hlast & _)].
    + apply IH; [lia|]. apply Forall_app. split; [exact Hpts|].
      now constructor.
    + assert (Htodo : todo = 0%nat) by lia. subst todo.
      cbn [practice_loop fst]. now rewrite removelast_last.
Qed.

End PracticeLoop.

Lemma generatePracticeDataset_points (difficulty : string) (random : nat -> Q)
    (k : nat) :
  let '(countMin, countMax) :=
    if String.eqb difficulty "easy" then (2%Z, 2%Z)
    else if String.eqb difficulty "hard" then (5%Z, 8%Z)
    else (3%Z, 4%Z) in
  let numPoints :=
    (Qfloor (random k * inject_Z (countMax - countMin + 1)) + countMin)%Z in
  points (fst (generatePracticeDataset difficulty random k))
  = fst (practice_loop difficulty random numPoints (Z.to_nat numPoints) 0
           (S k) [])
  /\ optimalB (fst (generatePracticeDataset difficulty random k))
     = Some (computeOptimalB (fst (generatePracticeDataset difficulty random k))).
Proof.
  unfold generatePracticeDataset. cbv zeta.
  destruct (String.eqb difficulty "easy");
    [|destruct (String.eqb difficulty "hard")];
    match goal with
    | |- context [practice_loop ?d ?r ?n ?t ?i ?k0 ?l] =>
        destruct (practice_loop d r n t i k0 l) as [pts k']
    end; split; reflexivity.
Qed.

(** X19.  Whatever [Math.random] returns, a practice dataset has 2 points
    for "easy", 5 to 8 for "hard" and 3 or 4 for any other difficulty, so
    it is never empty; its x-values are 1, 2, ..., n; and its [optimalB]
    is [computeOptimalB] of its points. *)
Theorem generatePracticeDataset_shape (difficulty : string)
    (random : nat -> Q) (k : nat) :
  (forall j : nat, 0 <= random j /\ random j < 1) ->
  let d := fst (generatePracticeDataset difficulty random k) in
  let n := length (points d) in
  (difficulty = "easy"%string -> n = 2%nat)
  /\ (difficulty = "hard"%string -> (5 <= n <= 8)%nat)
  /\ (difficulty <> "easy"%string -> difficulty <> "hard"%string ->
      (3 <= n <= 4)%nat)
  /\ points d <> []
  /\ map Point.x (points d)
     = map (fun j => inject_Z (Z.of_nat j) + 1) (seq 0 n)
  /\ optimalB d = Some (computeOptimalB d).
Proof.
  intros Hr. cbv zeta.
  pose proof (generatePracticeDataset_points difficulty random k) as Hp.
  destruct (Hr k) as [Hk0 Hk1].
  assert (Hcount :
    exists numPoints : Z,
      points (fst (generatePracticeDataset difficulty random k))
      = fst (practice_loop difficulty random numPoints (Z.to_nat numPoints) 0
               (S k) [])
      /\ optimalB (fst (generatePracticeDataset difficulty random k))
         = Some (computeOptimalB (fst (generatePracticeDataset difficulty random k)))
      /\ (difficulty = "easy"%string -> numPoints = 2%Z)
      /\ (difficulty = "hard"%string -> (5 <= numPoints <= 8)%Z)
      /\ (difficulty <> "easy"%string -> difficulty <> "hard"%string ->
          (3 <= numPoints <= 4)%Z)
      /\ (2 <= numPoints <= 8)%Z).
  { destruct (String.eqb_spec difficulty "easy") as [He | He].
    - destruct Hp as [Hp Ho]. eexists. split; [exact Hp | split; [exact Ho|]].
      pose proof (random_floor_bounds (random k) (2 - 2 + 1) Hk0 Hk1) as Hb.
      repeat split; intros; try congruence; try (subst; discriminate); lia.
    - destruct (String.eqb_spec difficulty "hard") as [Hh | Hh].
      + destruct Hp as [Hp Ho]. eexists. split; [exact Hp | split; [exact Ho|]].
        pose proof (random_floor_bounds (random k) (8 - 5 + 1) Hk0 Hk1) as Hb.
        repeat split; intros; try congruence; lia.
      + destruct Hp as [Hp Ho]. eexists. split; [exact Hp | split; [exact Ho|]].
        pose proof (random_floor_bounds (random k) (4 - 3 + 1) Hk0 Hk1) as Hb.
        repeat split; intros; try congruence; lia. }
  destruct Hcount as (numPoints & Hpts & Hopt & He & Hh & Hm & Hall).
  assert (Hlen : length (points (fst (generatePracticeDataset difficulty random k)))
                 = Z.to_nat numPoints).
  { rewrite Hpts, practice_loop_length by exact Hr. reflexivity. }
  rewrite Hlen.
  split; [|split; [|split; [|split; [|split]]]].
  - intros H. apply He in H. lia.
  - intros H. apply Hh in H. lia.
  - intros H1 H2. pose proof (Hm H1 H2). lia.
  - intros Hnil. rewrite Hnil in Hlen. cbn [length] in Hlen. lia.
  - rewrite Hpts, practice_loop_xs by exact Hr. reflexivity.
  - exact Hopt.
Qed.

Lemma generatePracticeDataset_shape_witness :
  length (points (fst (generatePracticeDataset "easy" (fun _ => 0.5) 0))) = 2%nat.
Proof.
  assert (Hr : forall j : nat, 0 <= (fun _ : nat => 0.5) j
                               /\ (fun _ : nat => 0.5) j < 1).
  { intros j. split; [vm_compute; discriminate | reflexivity]. }
  destruct (generatePracticeDataset_shape "easy" (fun _ => 0.5) 0 Hr)
    as (Heasy & _).
  apply Heasy. reflexivity.
Defined.

(** X20.  Whatever [Math.random] returns, every y-value of a practice
    dataset but the last lies in [1, 10); the last lies in [1, 10) too,
    or, for "hard" only, between 12 and 20.  So [computeOptimalB] lies
    between 1 and 10 unless the difficulty is "hard", and between 1 and 20
    always. *)
Theorem generatePracticeDataset_values (difficulty : string)
    (random : nat -> Q) (k : nat) :
  (forall j : nat, 0 <= random j /\ random j < 1) ->
  let d := fst (generatePracticeDataset difficulty random k) in
  Forall base_y (removelast (points d))
  /\ Forall (fun p => base_y p \/ (difficulty = "hard"%string /\ outlier_y p))
       (points d)
  /\ (difficulty <> "hard"%string ->
      1 <= computeOptimalB d /\ computeOptimalB d <= 10)
  /\ (1 <= computeOptimalB d /\ computeOptimalB d <= 20).
Proof.
  intros Hr. cbv zeta.
  pose proof (generatePracticeDataset_points difficulty random k) as Hp.
  destruct (Hr k) as [Hk0 Hk1].
  assert (Hcount :
    exists numPoints : Z,
      points (fst (generatePracticeDataset difficulty random k))
      = fst (practice_loop difficulty random numPoints (Z.to_nat numPoints) 0
               (S k) [])
      /\ (2 <= numPoints)%Z).
  { destruct (String.eqb difficulty "easy");
      [|destruct (String.eqb difficulty "hard")];
      destruct Hp as [Hp _]; eexists; (split; [exact Hp|]).
    - pose proof (random_floor_bounds (random k) (2 - 2 + 1) Hk0 Hk1). lia.
    - pose proof (random_floor_bounds (random k) (8 - 5 + 1) Hk0 Hk1). lia.
    - pose proof (random_floor_bounds (random k) (4 - 3 + 1) Hk0 Hk1). lia. }
  destruct Hcount as (numPoints & Hpts & Hn).
  set (d := fst (generatePracticeDataset difficulty random k)) in *.
  assert (Hne : points d <> []).
  { intros Hnil. apply (f_equal (@length Point.t)) in Hnil.
    rewrite Hpts, practice_loop_length in Hnil by exact Hr.
    cbn [length] in Hnil. lia. }
  assert (Hall : Forall (fun p => base_y p
                                  \/ (difficulty = "hard"%string /\ outlier_y p))
                   (points d)).
  { rewrite Hpts. apply practice_loop_ys; [exact Hr | constructor]. }
  assert (Hwide : Forall (fun p => 1 <= Point.y p /\ Point.y p <= 20) (points d)).
  { apply (Forall_impl _ (P := fun p => base_y p
                                        \/ (difficulty = "hard"%string
                                            /\ outlier_y p))); [|exact Hall].
    intros p [[H1 H2] | (_ & H1 & H2)]; split; lra. }
  split; [|split; [exact Hall | split]].
  - rewrite Hpts. apply practice_loop_front; [exact Hr | lia | constructor].
  - intros Hnot.
    assert (Hbase : Forall (fun p => 1 <= Point.y p /\ Point.y p <= 10)
                      (points d)).
    { apply (Forall_impl _ (P := fun p => base_y p
                                          \/ (difficulty = "hard"%string
                                              /\ outlier_y p))); [|exact Hall].
      intros p [[H1 H2] | (Hh & _)]; [split; lra | congruence]. }
    rewrite computeOptimalB_mean. now apply mean_y_bounds.
  - rewrite computeOptimalB_mean. now apply mean_y_bounds.
Qed.

Lemma generatePracticeDataset_values_witness :
  1 <= computeOptimalB (fst (generatePracticeDataset "hard" (fun _ => 0.1) 0))
  /\ computeOptimalB (fst (generatePracticeDataset "hard" (fun _ => 0.1) 0))
     <= 20.
Proof.
  assert (Hr : forall j : nat, 0 <= (fun _ : nat => 0.1) j
                               /\ (fun _ : nat => 0.1) j < 1).
  { intros j. split; [vm_compute; discriminate | reflexivity]. }
  destruct (generatePracticeDataset_values "hard" (fun _ => 0.1) 0 Hr)
    as (_ & _ & _ & Hopt).
  exact Hopt.
Defined.

(** ** The rows of a run *)

(** X22.  The history a run leaves is consistent row by row: every entry
    holds the error and the gradient of its own [b], the first entry holds
    the [b] the run started from, and the [b] of the next entry is
    [b - learningRate * gradient] of this one. *)
Theorem run_history_chain (w : World) (n i : nat) :
  isRunning (gdState w) = false ->
  iterations w = Z.of_nat n ->
  (i < n)%nat ->
  exists e : Entry.t,
    nth_error (history (gdState (final runGradientDescent w))) i = Some e
    /\ Entry.iteration e = i
    /\ Entry.mse e = computeMSE (mainData w) (Entry.b e)
    /\ Entry.gradient e = computeMSEDerivative (mainData w) (Entry.b e)
    /\ (i = 0%nat -> Entry.b e = currentB (gdState w))
    /\ ((S i < n)%nat ->
        exists e' : Entry.t,
          nth_error (history (gdState (final runGradientDescent w))) (S i)
          = Some e'
          /\ Entry.b e' = Entry.b e - learning_rate w * Entry.gradient e).
Proof.
  intros Hidle Hn Hi.
  destruct (runGradientDescent_final w Hidle) as (_ & _ & -> & _).
  rewrite Hn, Nat2Z.id.
  eexists. split; [apply nth_error_map_seq; exact Hi|].
  cbn [entry_at Entry.iteration Entry.mse Entry.gradient Entry.b].
  split; [reflexivity | split; [reflexivity | split; [reflexivity | split]]].
  - intros ->. reflexivity.
  - intros Hsi. eexists. split; [apply nth_error_map_seq; exact Hsi|].
    reflexivity.
Qed.

Lemma run_history_chain_witness :
  exists e : Entry.t,
    nth_error (history (gdState (final runGradientDescent (world0 0.2 15)))) 0
    = Some e
    /\ Entry.iteration e = 0%nat
    /\ Entry.mse e = computeMSE mainData1 (Entry.b e)
    /\ Entry.gradient e = computeMSEDerivative mainData1 (Entry.b e).
Proof.
  assert (Hidle : isRunning (gdState (world0 0.2 15)) = false) by reflexivity.
  assert (Hn : iterations (world0 0.2 15) = Z.of_nat 15) by reflexivity.
  assert (Hi : (0 < 15)%nat) by lia.
  destruct (run_history_chain (world0 0.2 15) 15 0 Hidle Hn Hi)
    as (e & He & H1 & H2 & H3 & _).
  exists e. split; [exact He | split; [exact H1 | split; [exact H2 | exact H3]]].
Defined.
